(** * label_studio_converter.utils: config parsing and BIO span tagging

    A shallow embedding of [create_tokens_and_tags] and [parse_config]
    from [label_studio_converter/utils.py], together with the properties
    of the two algorithms. Python integers are [Z], Python [str] is
    [string], a Python [dict] is an insertion-ordered association list
    ([Py.dict]), and code that can raise returns a [Py.result].

    The smaller functions [tokenize], [get_json_root_type],
    [get_polygon_bounding_box], [_get_upload_dir] and [prettify_result]
    are embedded in [Tagger] and [Util]. *)

From Stdlib Require Import ZArith List String Ascii Bool Lia Permutation Sorted.
Import ListNotations.

Set Warnings "-register-all".

Open Scope string_scope.
Open Scope Z_scope.

(* ================================================================= *)
(** * Part I: definitions *)
(* ================================================================= *)

(** ** Python values: exceptions and ordered dictionaries *)

Module Py.

Inductive exn : Type :=
| KeyError (key : string)
| TypeError
| IndexError
| ValueError (msg : string).

Inductive result (A : Type) : Type :=
| Ok (a : A)
| Raise (e : exn).

Arguments Ok {A} a.
Arguments Raise {A} e.

Definition bind {A B : Type} (c : result A) (k : A -> result B) : result B :=
  match c with
  | Ok a => k a
  | Raise e => Raise e
  end.

(** [d.get(k)], [d[k] = v] and [list(d)] on an insertion-ordered
    dictionary with string keys. Assigning to a key that is already
    present keeps its position and replaces its value; a new key goes
    to the end. *)
Definition dict (V : Type) : Type := list (string * V).

Fixpoint get {V : Type} (k : string) (d : dict V) : option V :=
  match d with
  | [] => None
  | (k', v) :: d' => if String.eqb k k' then Some v else get k d'
  end.

Fixpoint set {V : Type} (k : string) (v : V) (d : dict V) : dict V :=
  match d with
  | [] => [(k, v)]
  | (k', v') :: d' =>
      if String.eqb k k' then (k, v) :: d' else (k', v') :: set k v d'
  end.

Definition keys {V : Type} (d : dict V) : list string := map fst d.

Definition mem {V : Type} (k : string) (d : dict V) : bool :=
  match get k d with Some _ => true | None => false end.

(** [dict(pairs)]: later pairs overwrite earlier ones with the same key. *)
Definition of_items {V : Type} (items : list (string * V)) : dict V :=
  fold_left (fun d kv => set (fst kv) (snd kv) d) items [].

(** Truth value of a [str] or [None] result: [None] and [""] are falsy. *)
Definition truthy (o : option string) : bool :=
  match o with
  | Some (String _ _) => true
  | _ => false
  end.

End Py.

Import Py.

Notation "x <- c ;; k" := (Py.bind c (fun x => k))
  (at level 61, c at next level, right associativity).
Notation "' pat <- c ;; k" := (Py.bind c (fun x => match x with pat => k end))
  (at level 61, pat pattern, c at next level, right associativity).

(** ** SpanTagger: [tokenize] and [create_tokens_and_tags] *)

Module Tagger.

(** An annotation span as decoded from JSON: a dictionary whose keys
    [start], [end] and [labels] may each be missing (or [null]). *)
Record Span : Type := mkSpan {
  start : option Z;
  end_ : option Z;
  labels : option (list string)
}.

(** [span['start']] and [span['end']]: a missing key raises; a [None]
    value would raise at the first arithmetic on it, which the model
    reports at the read. *)
Definition item_start (sp : Span) : result Z :=
  match start sp with
  | Some z => Ok z
  | None => Raise (KeyError "start")
  end.

Definition item_end (sp : Span) : result Z :=
  match end_ sp with
  | Some z => Ok z
  | None => Raise (KeyError "end")
  end.

(** [bool(span)]: a dictionary is falsy only when it has no key. *)
Definition span_truthy (sp : Span) : bool :=
  match start sp, end_ sp, labels sp with
  | None, None, None => false
  | _, _, _ => true
  end.

(** [bool(span.get('labels'))]: [None] and the empty list are falsy. *)
Definition labels_truthy (sp : Span) : bool :=
  match labels sp with
  | Some (_ :: _) => true
  | _ => false
  end.

(** [span['labels'][0]] *)
Definition first_label (sp : Span) : result string :=
  match labels sp with
  | None => Raise (KeyError "labels")
  | Some [] => Raise IndexError
  | Some (l :: _) => Ok l
  end.

(** A token with its start offset, [(token, token_start)]. *)
Definition Token : Type := (string * Z)%type.

(** *** [tokenize] (lines 54-63) *)

Definition is_space (c : ascii) : bool :=
  let n := nat_of_ascii c in
  (Nat.eqb n 32 || (Nat.leb 9 n && Nat.leb n 13) || (Nat.leb 28 n && Nat.leb n 31))%bool.

(** [text.split()]: the maximal runs of non-whitespace characters.
    [word] holds the run being read, reversed. *)
Fixpoint split_ws (word : list ascii) (text : string) : list string :=
  let flush rest :=
    match word with
    | [] => rest
    | _ :: _ => string_of_list_ascii (rev word) :: rest
    end in
  match text with
  | EmptyString => flush []
  | String c text' =>
      if is_space c then flush (split_ws [] text') else split_ws (c :: word) text'
  end.

Fixpoint tokenize_from (tok_start : Z) (toks : list string) : list Token :=
  match toks with
  | [] => []
  | tok :: toks' =>
      if Nat.ltb 0 (String.length tok)
      then (tok, tok_start) :: tokenize_from (tok_start + Z.of_nat (String.length tok) + 1) toks'
      else tokenize_from (tok_start + 1) toks'
  end.

Definition tokenize (text : string) : list Token :=
  tokenize_from 0 (split_ws [] text).

(** *** The sweep of [create_tokens_and_tags] (lines 78-112) *)

(** The loop variables [span], [span_start], [span_end], [prefix] and
    the not yet consumed tail [spans] of the sorted list. *)
Record Cursor : Type := mkCursor {
  span : Span;
  span_start : Z;
  span_end : Z;
  prefix : string;
  spans : list Span
}.

(** [sorted(spans, key=itemgetter('start'))]: the keys are computed
    first, then the list is sorted stably on them. *)
Fixpoint keyed (l : list Span) : result (list (Z * Span)) :=
  match l with
  | [] => Ok []
  | sp :: l' =>
      k <- item_start sp ;;
      kl <- keyed l' ;;
      Ok ((k, sp) :: kl)
  end.

Fixpoint insert_by_key (x : Z * Span) (l : list (Z * Span)) : list (Z * Span) :=
  match l with
  | [] => [x]
  | y :: l' => if fst x <=? fst y then x :: l else y :: insert_by_key x l'
  end.

Definition stable_sort (l : list (Z * Span)) : list (Z * Span) :=
  fold_right insert_by_key [] l.

Definition sorted_by_start (l : list Span) : result (list Span) :=
  kl <- keyed l ;;
  Ok (map snd (stable_sort kl)).

(** Loading a span popped from the front of [spans] (lines 79-82 and
    96-99); [rest] is what remains of the list. *)
Definition load (sp : Span) (rest : list Span) : result Cursor :=
  s <- item_start sp ;;
  e <- item_end sp ;;
  Ok {| span := sp; span_start := s; span_end := e - 1;
        prefix := "B-"; spans := rest |}.

(** The [while spans:] loop of lines 95-101, entered with cursor [st]
    whose remaining spans are [rest]. *)
Fixpoint pop_spans (token_start : Z) (st : Cursor) (rest : list Span) : result Cursor :=
  match rest with
  | [] => Ok st
  | sp :: rest' =>
      st' <- load sp rest' ;;
      if token_start <=? span_end st' then Ok st'
      else pop_spans token_start st' rest'
  end.

(** Lines 94-101. *)
Definition advance (st : Cursor) (token_start : Z) : result Cursor :=
  if token_start >? span_end st
  then pop_spans token_start st (spans st)
  else Ok st.

(** The test of line 108 on the cursor's span. *)
Definition overlaps (st : Cursor) (token_start token_end : Z) : bool :=
  (span_start st <=? token_end) && (span_end st >=? token_start).

(** The test of line 106. *)
Definition outside (st : Cursor) (token_end : Z) : bool :=
  negb (span_truthy (span st)) || (token_end <? span_start st)
  || negb (labels_truthy (span st)).

Definition token_end_of (token : string) (token_start : Z) : Z :=
  token_start + Z.of_nat (String.length token) - 1.

(** Lines 106-112: the tag of the token and the cursor afterwards. *)
Definition tag_token (st : Cursor) (token : string) (token_start : Z)
  : result (string * Cursor) :=
  let token_end := token_end_of token token_start in
  if outside st token_end then Ok ("O", st)
  else if overlaps st token_start token_end then
    l <- first_label (span st) ;;
    Ok (String.append (prefix st) l,
        {| span := span st; span_start := span_start st;
           span_end := span_end st; prefix := "I-"; spans := spans st |})
  else Ok ("O", st).

(** The [for] loop of lines 84-112; the lists are [tokens] and [tags]. *)
Fixpoint sweep (st : Cursor) (tokens_and_idx : list Token)
  : result (list string * list string) :=
  match tokens_and_idx with
  | [] => Ok ([], [])
  | (token, token_start) :: rest =>
      st1 <- advance st token_start ;;
      ' (tag, st2) <- tag_token st1 token token_start ;;
      ' (tokens, tags) <- sweep st2 rest ;;
      Ok (token :: tokens, tag :: tags)
  end.

(** The guard of lines 72-77. *)
Definition has_bounds (sp : Span) : bool :=
  match start sp, end_ sp with
  | Some _, Some _ => true
  | _, _ => false
  end.

Definition spans_usable (l : list Span) : bool :=
  match l with
  | [] => false
  | _ :: _ => forallb has_bounds l
  end.

Section WithTokenizer.

(** [TreebankWordTokenizer().span_tokenize]: the [(start, end)]
    offsets of the tokens of a text. *)
Variable span_tokenize : string -> list (nat * nat).

(** Line 71: [(text[start:end], start)] for each offset pair. *)
Definition tokens_and_idx_of (text : string) : list Token :=
  map (fun se : nat * nat =>
         (String.substring (fst se) (snd se - fst se) text, Z.of_nat (fst se)))
      (span_tokenize text).

Definition create_tokens_and_tags (text : string) (spans : list Span)
  : result (list string * list string) :=
  let tokens_and_idx := tokens_and_idx_of text in
  if spans_usable spans then
    sorted <- sorted_by_start spans ;;
    match sorted with
    | [] => Raise IndexError
    | sp :: rest =>
        st <- load sp rest ;;
        sweep st tokens_and_idx
    end
  else
    let tokens := map fst tokens_and_idx in
    Ok (tokens, repeat "O" (List.length tokens)).

End WithTokenizer.

(** The whitespace tokenizer [tokenize] seen as a span tokenizer. *)
Definition whitespace_spans (text : string) : list (nat * nat) :=
  map (fun t : Token =>
         (Z.to_nat (snd t), (Z.to_nat (snd t) + String.length (fst t))%nat))
      (tokenize text).

(** *** Ghost trace of the sweep: the cursor each token is tagged with *)

Fixpoint cursors (st : Cursor) (tokens_and_idx : list Token) : result (list Cursor) :=
  match tokens_and_idx with
  | [] => Ok []
  | (token, token_start) :: rest =>
      st1 <- advance st token_start ;;
      ' (tag, st2) <- tag_token st1 token token_start ;;
      cs <- cursors st2 rest ;;
      Ok (st1 :: cs)
  end.

(** The same trace for a whole call, when the guard of line 72 holds. *)
Definition cursor_trace (span_tokenize : string -> list (nat * nat))
           (text : string) (spans : list Span) : result (list Cursor) :=
  sorted <- sorted_by_start spans ;;
  match sorted with
  | [] => Raise IndexError
  | sp :: rest =>
      st <- load sp rest ;;
      cursors st (tokens_and_idx_of span_tokenize text)
  end.

(** Whether the token gets a [B-]/[I-] tag from cursor [st]. *)
Definition hits (st : Cursor) (t : Token) : bool :=
  negb (outside st (token_end_of (fst t) (snd t)))
  && overlaps st (snd t) (token_end_of (fst t) (snd t)).


(** Two cursors are on the same span of the sorted list when the same
    number of spans is left behind them. *)
Definition same_span (a b : Cursor) : bool :=
  Nat.eqb (List.length (spans a)) (List.length (spans b)).

(** Whether a token before position [j] was tagged from the span that
    cursor [c] is on. *)
Definition tagged_before (cs : list Cursor) (toks : list Token)
           (c : Cursor) (j : nat) : bool :=
  existsb (fun ct => same_span (fst ct) c && hits (fst ct) (snd ct))
          (firstn j (combine cs toks)).

(** The cursor agrees with the span it is on, and the spans left can
    be loaded. *)
Definition ready (st : Cursor) : Prop :=
  start (span st) = Some (span_start st)
  /\ end_ (span st) = Some (span_end st + 1)
  /\ forallb has_bounds (spans st) = true.

(** Token start offsets in ascending order (the tokenizer's contract). *)
Fixpoint ascending (toks : list Token) : bool :=
  match toks with
  | [] => true
  | t :: rest => forallb (fun u => snd t <=? snd u) rest && ascending rest
  end.

(** What the sweep establishes for the token at position [j], tagged
    from cursor [c], when it was started from cursor [st]. *)
Definition token_facts (st : Cursor) (toks : list Token) (cs : list Cursor)
           (tags : list string) (j : nat) (tok : Token) (c : Cursor) : Prop :=
  ready c
  /\ In (span c) (span st :: spans st)
  /\ (List.length (spans c) <= List.length (spans st))%nat
  /\ (snd tok <= span_end c \/ spans c = [])
  /\ prefix c = (if tagged_before cs toks c j then "I-"
                 else if same_span c st then prefix st else "B-")
  /\ (hits c tok = false -> nth_error tags j = Some "O")
  /\ (hits c tok = true ->
      exists l ls, labels (span c) = Some (l :: ls)
                   /\ nth_error tags j = Some (String.append (prefix c) l)).

End Tagger.

(** ** ConfigParser: [parse_config] *)

Module Config.

(** An element of the parsed tree: [tag.tag], [tag.attrib] and the
    child elements. Comments and processing instructions, which
    [iter()] also yields, carry no attribute and no child, and their
    [tag] is not a string: the loop body leaves the state unchanged on
    them, so the model leaves them out. *)
Inductive Node : Type :=
| Element (tag : string) (attrib : list (string * string)) (children : list Node).

Definition tag (n : Node) : string :=
  match n with Element t _ _ => t end.

Definition attrib (n : Node) : list (string * string) :=
  match n with Element _ a _ => a end.

Definition children (n : Node) : list Node :=
  match n with Element _ _ c => c end.

(** [tag.attrib.get(k)] *)
Definition attr (k : string) (n : Node) : option string :=
  Py.get k (attrib n).

(** [tag.attrib[k]] *)
Definition item (k : string) (n : Node) : result string :=
  match attr k n with
  | Some v => Ok v
  | None => Raise (KeyError k)
  end.

Definition _LABEL_TAGS : list string := ["Label"; "Choice"].
Definition _NOT_CONTROL_TAGS : list string := ["Filter"].

Definition in_set (s : string) (l : list string) : bool :=
  existsb (String.eqb s) l.

(** [s.split(sep)] for a one-character separator. *)
Fixpoint split_on (sep : ascii) (s : string) : list string :=
  match s with
  | EmptyString => [EmptyString]
  | String c s' =>
      if Ascii.eqb c sep then EmptyString :: split_on sep s'
      else match split_on sep s' with
           | [] => [String c EmptyString]
           | w :: ws => String c w :: ws
           end
  end.

(** [sep.join(parts)] for a one-character separator. *)
Fixpoint join (sep : ascii) (parts : list string) : string :=
  match parts with
  | [] => EmptyString
  | [w] => w
  | w :: rest => String.append w (String sep (join sep rest))
  end.

(** [s.lstrip(ch)] for a one-character set. *)
Fixpoint lstrip (ch : ascii) (s : string) : string :=
  match s with
  | EmptyString => EmptyString
  | String c s' => if Ascii.eqb c ch then lstrip ch s' else s
  end.

(** [a or b] on optional strings. *)
Definition or_else (a b : option string) : option string :=
  if Py.truthy a then a else b.

Record InputInfo : Type := mkInput {
  in_type : string;
  in_value : string
}.

Record Conditional : Type := mkCond {
  cond_type : string;
  cond_name : string
}.

(** [tag_info] as built in the first pass. *)
Record OutputInfo : Type := mkOutput {
  type_ : string;
  to_name : list string;
  conditionals : option Conditional
}.

(** [tag_info] as returned: the second pass adds three keys. *)
Record TagInfo : Type := mkTagInfo {
  ti_type : string;
  ti_to_name : list string;
  ti_conditionals : option Conditional;
  ti_inputs : list InputInfo;
  ti_labels : list string;
  ti_labels_attrs : dict (dict string)
}.

Definition Schema : Type := dict TagInfo.

(** The two [logger.debug] messages. *)
Inductive Diag : Type :=
| NoValueOrAlias (n : Node)
| MissingInput (input_tag_name output_tag : string).

(** The accumulators [inputs], [outputs], [labels] and the log. *)
Record Acc : Type := mkAcc {
  inputs : dict InputInfo;
  outputs : dict OutputInfo;
  labels : dict (dict (dict string));
  log : list Diag
}.

Definition _is_input_tag (n : Node) : bool :=
  Py.truthy (attr "name" n) && Py.truthy (attr "value" n).

Definition _is_output_tag (n : Node) : bool :=
  Py.truthy (attr "name" n) && Py.truthy (attr "toName" n)
  && negb (in_set (tag n) _NOT_CONTROL_TAGS).

(** [ancestors] is the chain [tag.getparent()], its parent, ... up to
    the root. *)
Fixpoint _get_parent_output_tag_name (ancestors : list Node) (outs : dict OutputInfo)
  : option string :=
  match ancestors with
  | [] => None
  | parent :: up =>
      match attr "name" parent with
      | Some name =>
          if Py.mem name outs then Some name
          else _get_parent_output_tag_name up outs
      | None => _get_parent_output_tag_name up outs
      end
  end.

(** Lines 272-285. *)
Definition conditionals_of (n : Node) : result (option Conditional) :=
  match attr "perRegion" n with
  | Some "true" =>
      if Py.truthy (attr "whenTagName" n) then
        v <- item "whenTagName" n ;; Ok (Some (mkCond "tag" v))
      else if Py.truthy (attr "whenLabelValue" n) then
        v <- item "whenLabelValue" n ;; Ok (Some (mkCond "label" v))
      else if Py.truthy (attr "whenChoiceValue" n) then
        v <- item "whenChoiceValue" n ;; Ok (Some (mkCond "choice" v))
      else Ok None
  | _ => Ok None
  end.

(** Lines 269-293. *)
Definition classify (st : Acc) (n : Node) : result Acc :=
  if _is_output_tag n then
    toName <- item "toName" n ;;
    cond <- conditionals_of n ;;
    name <- item "name" n ;;
    let tag_info := mkOutput (tag n) (split_on "," toName) cond in
    Ok (mkAcc (inputs st) (Py.set name tag_info (outputs st)) (labels st) (log st))
  else if _is_input_tag n then
    name <- item "name" n ;;
    value <- item "value" n ;;
    Ok (mkAcc (Py.set name (mkInput (tag n) (lstrip "$" value)) (inputs st))
              (outputs st) (labels st) (log st))
  else Ok st.

(** [labels[k]] on the [defaultdict(dict)]. *)
Definition labels_of (k : string) (lbls : dict (dict (dict string))) : dict (dict string) :=
  match Py.get k lbls with
  | Some d => d
  | None => []
  end.

(** Lines 294-306. *)
Definition collect_label (st : Acc) (n : Node) (ancestors : list Node) : Acc :=
  if negb (in_set (tag n) _LABEL_TAGS) then st
  else
    match _get_parent_output_tag_name ancestors (outputs st) with
    | None => st
    | Some parent_name =>
        match or_else (attr "alias" n) (attr "value" n) with
        | Some (String c s) =>
            let actual_value := String c s in
            mkAcc (inputs st) (outputs st)
                  (Py.set parent_name
                     (Py.set actual_value (Py.of_items (attrib n))
                             (labels_of parent_name (labels st)))
                     (labels st))
                  (log st)
        | _ =>
            mkAcc (inputs st) (outputs st) (labels st)
                  (log st ++ [NoValueOrAlias n])%list
        end
    end.

(** The body of the loop of line 268 on one node. *)
Definition visit (st : Acc) (x : Node * list Node) : result Acc :=
  st1 <- classify st (fst x) ;;
  Ok (collect_label st1 (fst x) (snd x)).

(** [xml_tree.iter()]: the elements in document order, each with its
    chain of ancestors, nearest first. *)
Fixpoint iter_from (ancestors : list Node) (n : Node) : list (Node * list Node) :=
  match n with
  | Element _ _ cs => (n, ancestors) :: flat_map (iter_from (n :: ancestors)) cs
  end.

Definition iter (xml_tree : Node) : list (Node * list Node) :=
  iter_from [] xml_tree.

Fixpoint visit_all (st : Acc) (nodes : list (Node * list Node)) : result Acc :=
  match nodes with
  | [] => Ok st
  | x :: rest => st' <- visit st x ;; visit_all st' rest
  end.

(** Lines 309-316 for one output tag: the descriptors found and the
    diagnostics for the names that are not input tags. *)
Fixpoint resolve_inputs (output_tag : string) (names : list string)
         (ins : dict InputInfo) : list InputInfo * list Diag :=
  match names with
  | [] => ([], [])
  | input_tag_name :: rest =>
      let r := resolve_inputs output_tag rest ins in
      match Py.get input_tag_name ins with
      | None => (fst r, MissingInput input_tag_name output_tag :: snd r)
      | Some d => (d :: fst r, snd r)
      end
  end.

(** Lines 307-318 over [outputs.items()]. *)
Fixpoint complete (items : list (string * OutputInfo)) (ins : dict InputInfo)
         (lbls : dict (dict (dict string))) : Schema * list Diag :=
  match items with
  | [] => ([], [])
  | (output_tag, tag_info) :: rest =>
      let r := resolve_inputs output_tag (to_name tag_info) ins in
      let done := complete rest ins lbls in
      ((output_tag,
        mkTagInfo (type_ tag_info) (to_name tag_info) (conditionals tag_info)
                  (fst r)
                  (Py.keys (labels_of output_tag lbls))
                  (labels_of output_tag lbls)) :: fst done,
       (snd r ++ snd done)%list)
  end.

Definition empty_acc : Acc := mkAcc [] [] [] [].

(** Lines 267-319 on the parsed tree: the returned [outputs] and the
    messages logged. *)
Definition parse_tree (xml_tree : Node) : result (Schema * list Diag) :=
  st <- visit_all empty_acc (iter xml_tree) ;;
  let r := complete (outputs st) (inputs st) (labels st) in
  Ok (fst r, (log st ++ snd r)%list).

(** What a call of [etree.fromstring] on a [str] does: it returns the
    root of the tree, raises [XMLSyntaxError] ([str(e)] is the message),
    or raises something else. [lxml] does the last on a string that
    carries an encoding declaration: a [ValueError] of its own, raised
    before any parsing. *)
Inductive Parsed : Type :=
| Root (xml_tree : Node)
| XMLSyntaxError (msg : string)
| Uncaught (e : exn).

Section WithParser.

(** [etree.fromstring] *)
Variable fromstring : string -> Parsed.

(** Lines 238-239 and 262-319. The [except] clause of line 264 names
    [etree.XMLSyntaxError] only; any other exception of the parser
    leaves [parse_config] as it is. *)
Definition parse_config (config_string : option string)
  : result (Schema * list Diag) :=
  if negb (Py.truthy config_string) then Ok ([], [])
  else
    match config_string with
    | None => Ok ([], [])
    | Some s =>
        match fromstring s with
        | XMLSyntaxError e => Raise (ValueError e)
        | Uncaught e => Raise e
        | Root xml_tree => parse_tree xml_tree
        end
    end.

End WithParser.

(** *** Ghost traces of the first pass *)

(** The label a node contributes: owner, value and attributes. *)
Definition label_event (outs : dict OutputInfo) (x : Node * list Node)
  : option (string * (string * dict string)) :=
  if in_set (tag (fst x)) _LABEL_TAGS then
    match _get_parent_output_tag_name (snd x) outs with
    | None => None
    | Some parent_name =>
        match or_else (attr "alias" (fst x)) (attr "value" (fst x)) with
        | Some (String c s) => Some (parent_name, (String c s, Py.of_items (attrib (fst x))))
        | _ => None
        end
    end
  else None.

(** The labels contributed along a traversal, in document order. *)
Fixpoint label_events (st : Acc) (nodes : list (Node * list Node))
  : list (string * (string * dict string)) :=
  match nodes with
  | [] => []
  | x :: rest =>
      match classify st (fst x) with
      | Raise _ => []
      | Ok st1 =>
          let tail := label_events (collect_label st1 (fst x) (snd x)) rest in
          match label_event (outputs st1) x with
          | Some ev => ev :: tail
          | None => tail
          end
      end
  end.

(** The labels of one owner, as (value, attributes) pairs. *)
Definition events_of (owner : string) (evs : list (string * (string * dict string)))
  : list (string * dict string) :=
  map snd (filter (fun ev => String.eqb (fst ev) owner) evs).

(** The distinct values of a list in order of first occurrence. *)
Fixpoint first_seen (seen l : list string) : list string :=
  match l with
  | [] => []
  | x :: l' =>
      if in_set x seen then first_seen seen l'
      else x :: first_seen (x :: seen) l'
  end.

(** The attributes of the last occurrence of a value. *)
Fixpoint last_attrs (v : string) (evs : list (string * dict string)) : option (dict string) :=
  match evs with
  | [] => None
  | (v', a) :: evs' =>
      match last_attrs v evs' with
      | Some a' => Some a'
      | None => if String.eqb v v' then Some a else None
      end
  end.

(** The last node of a traversal that satisfies [p] and is named [k]. *)
Fixpoint last_named (p : Node -> bool) (k : string) (nodes : list (Node * list Node))
  : option Node :=
  match nodes with
  | [] => None
  | x :: rest =>
      match last_named p k rest with
      | Some n => Some n
      | None =>
          if p (fst x) && match attr "name" (fst x) with
                          | Some name => String.eqb name k
                          | None => false
                          end
          then Some (fst x) else None
      end
  end.

(** A node recorded as an input tag: the [elif] branch of line 289. *)
Definition input_only (n : Node) : bool :=
  negb (_is_output_tag n) && _is_input_tag n.

(** [[inputs[name] for name in names if name in inputs]] *)
Definition found_inputs (names : list string) (ins : dict InputInfo) : list InputInfo :=
  flat_map (fun name => match Py.get name ins with
                        | Some d => [d]
                        | None => []
                        end) names.

(** The label dictionary of one owner after a sequence of labels. *)
Definition upsert_all (evs : list (string * dict string)) (d : dict (dict string))
  : dict (dict string) :=
  fold_left (fun acc ev => Py.set (fst ev) (snd ev) acc) evs d.

(** Induction on a tree, with the hypothesis for every child. *)
Fixpoint Node_nested_ind (P : Node -> Prop)
         (H : forall t a cs, Forall P cs -> P (Element t a cs)) (n : Node) : P n :=
  match n with
  | Element t a cs =>
      H t a cs
        ((fix all (l : list Node) : Forall P l :=
            match l with
            | [] => Forall_nil P
            | c :: l' => Forall_cons c (Node_nested_ind P H c) (all l')
            end) cs)
  end.

(** *** Example configurations *)

(** [<Choices name="c1" toName="t1"><View><Choice value="x"/></View></Choices>] *)
Definition cfg_choice : Node := Element "Choice" [("value", "x")] [].
Definition cfg_view : Node := Element "View" [] [cfg_choice].
Definition cfg_ownership : Node :=
  Element "Choices" [("name", "c1"); ("toName", "t1")] [cfg_view].

(** A [Text] named [A] and a [Labels] named [T] with [toName="A,B"]
    holding the labels [L1], [L2], [L1]. *)
Definition cfg_labels : Node :=
  Element "View" []
    [Element "Text" [("name", "A"); ("value", "$text")] [];
     Element "Labels" [("name", "T"); ("toName", "A,B")]
       [Element "Label" [("value", "L1"); ("background", "red")] [];
        Element "Label" [("value", "L2")] [];
        Element "Label" [("value", "L1"); ("background", "blue")] []]].

(** A [Filter] with [name] and [toName] next to a [Choices]. *)
Definition cfg_filter : Node :=
  Element "View" []
    [Element "Filter" [("name", "f"); ("toName", "c")] [];
     Element "Choices" [("name", "c"); ("toName", "t,u")] []].

(** [<Choices name="" toName="t"/>] *)
Definition cfg_empty_name : Node :=
  Element "Choices" [("name", ""); ("toName", "t")] [].

(** A [Choices] named [x] with [toName] and [value], after a [Text] of
    the same name, and a second [Choices] that points to [x]. *)
Definition cfg_both : Node :=
  Element "Choices" [("name", "x"); ("toName", "x"); ("value", "v")] [].
Definition cfg_same_name : Node :=
  Element "View" []
    [Element "Text" [("name", "x"); ("value", "$t")] [];
     cfg_both;
     Element "Choices" [("name", "c"); ("toName", "x")] []].

(** The same without the [Text]. *)
Definition cfg_precedence : Node :=
  Element "View" []
    [cfg_both; Element "Choices" [("name", "c"); ("toName", "x,y")] []].

(** A [Choices] whose [toName] is empty, and one that points to it. *)
Definition cfg_empty_toName : Node :=
  Element "View" []
    [Element "Choices" [("name", "n"); ("toName", ""); ("value", "v")] [];
     Element "Choices" [("name", "c"); ("toName", "n")] []].

(** A well-formed document, and the same document after an XML
    declaration that names an encoding. *)
Definition doc_plain : string := "<View/>".
Definition doc_declared : string :=
  "<?xml version='1.0' encoding='UTF-8'?><View/>".

(** [etree.fromstring] on the documents of the examples: the two trees,
    the [ValueError] with which [lxml] refuses a [str] that declares an
    encoding, and the [XMLSyntaxError] for the unclosed [<View>], which
    stands for every other string. *)
Definition toy_fromstring (s : string) : Parsed :=
  if String.eqb s "<Choices name='' toName='t'/>" then Root cfg_empty_name
  else if String.eqb s doc_plain then Root (Element "View" [] [])
  else if String.eqb s doc_declared then
    Uncaught (ValueError "Unicode strings with encoding declaration are not supported. Please use bytes input or XML fragments without declaration.")
  else XMLSyntaxError "Premature end of data in tag View line 1, line 1, column 7".

End Config.

(** ** The other helpers of [utils.py] *)

Module Util.

Inductive error : Type :=
| AssertionError
| ValueError
| KeyError (key : string)
| TypeError
| IndexError
| FileNotFoundError (msg : string).

Inductive outcome (A : Type) : Type :=
| Return (a : A)
| Throw (e : error).

Arguments Return {A} a.
Arguments Throw {A} e.

(** *** [get_json_root_type] (lines 350-373), on the text of the file *)

(** [f.read(1)]: the next character as a string, [""] at the end. *)
Definition read1 (f : string) : string * string :=
  match f with
  | EmptyString => (EmptyString, EmptyString)
  | String c rest => (String c EmptyString, rest)
  end.

(** [char.isspace()] on a string of at most one character. *)
Definition isspace (char : string) : bool :=
  match char with
  | String c EmptyString => Tagger.is_space c
  | _ => false
  end.

(** The [while char != '':] loop entered with [char] and the unread
    rest [f] of the file; an iteration at the end of the file returns,
    so the recursion follows the unread text. *)
Fixpoint root_type_loop (char : string) (f : string) : string :=
  if String.eqb char "" then "empty"
  else
    match f with
    | EmptyString =>
        let char := fst (read1 f) in
        if isspace char then "empty"
        else if String.eqb char "{" then "dict"
        else if String.eqb char "[" then "list"
        else "invalid"
    | String c rest =>
        let char := fst (read1 f) in
        if isspace char then root_type_loop char rest
        else if String.eqb char "{" then "dict"
        else if String.eqb char "[" then "list"
        else "invalid"
    end.

Definition get_json_root_type (content : string) : string :=
  root_type_loop "x" content.

(** *** [get_polygon_bounding_box] (lines 330-334), integer coordinates *)

Fixpoint min_from (m : Z) (l : list Z) : Z :=
  match l with
  | [] => m
  | y :: l' => min_from (if y <? m then y else m) l'
  end.

Fixpoint max_from (m : Z) (l : list Z) : Z :=
  match l with
  | [] => m
  | y :: l' => max_from (if y >? m then y else m) l'
  end.

(** [min(l)] and [max(l)]: [ValueError] on an empty list. *)
Definition py_min (l : list Z) : outcome Z :=
  match l with
  | [] => Throw ValueError
  | x :: l' => Return (min_from x l')
  end.

Definition py_max (l : list Z) : outcome Z :=
  match l with
  | [] => Throw ValueError
  | x :: l' => Return (max_from x l')
  end.

Definition get_polygon_bounding_box (x y : list Z) : outcome (list Z) :=
  if negb (Nat.eqb (List.length x) (List.length y)) then Throw AssertionError
  else
    match py_min x with
    | Throw e => Throw e
    | Return x1 =>
        match py_min y with
        | Throw e => Throw e
        | Return y1 =>
            match py_max x with
            | Throw e => Throw e
            | Return x2 =>
                match py_max y with
                | Throw e => Throw e
                | Return y2 => Return [x1; y1; x2 - x1; y2 - y1]
                end
            end
        end
    end.

(** *** [_get_upload_dir] (lines 120-133) *)

Definition starts_with_slash (s : string) : bool :=
  match s with
  | String "/" _ => true
  | _ => false
  end.

Fixpoint ends_with_slash (s : string) : bool :=
  match s with
  | EmptyString => false
  | String c EmptyString => Ascii.eqb c "/"
  | String _ s' => ends_with_slash s'
  end.

(** [os.path.join(a, b)] of [posixpath]. *)
Definition path_join (a b : string) : string :=
  if starts_with_slash b then b
  else if String.eqb a "" || ends_with_slash a then String.append a b
  else String.append a (String "/" b).

Section WithEnvironment.

(** [os.environ.get('LS_UPLOAD_DIR')] and [os.path.exists]. *)
Variable LS_UPLOAD_DIR : option string.
Variable path_exists : string -> bool.

Definition _get_upload_dir (project_dir upload_dir : option string) : outcome string :=
  match upload_dir with
  | Some (String c s) => Return (String c s)
  | _ =>
      let upload_dir := LS_UPLOAD_DIR in
      let upload_dir :=
        match project_dir with
        | Some (String c s) =>
            if negb (Py.truthy upload_dir) then
              let upload_dir := path_join (String c s) "upload" in
              if negb (path_exists upload_dir) then None else Some upload_dir
            else upload_dir
        | _ => upload_dir
        end in
      match upload_dir with
      | Some (String c s) => Return (String c s)
      | _ =>
          Throw (FileNotFoundError
                   "Can't find upload dir: either LS_UPLOAD_DIR or project should be passed to converter")
      end
  end.

End WithEnvironment.

(** *** [prettify_result] (lines 376-392) *)

(** JSON values; a region is a dictionary of them. *)
Inductive Val : Type :=
| VNone
| VNum (n : Z)
| VStr (s : string)
| VList (l : list Val)
| VDict (d : list (string * Val)).

(** [len(v)] *)
Definition py_len (v : Val) : outcome nat :=
  match v with
  | VStr s => Return (String.length s)
  | VList l => Return (List.length l)
  | VDict d => Return (List.length d)
  | _ => Throw TypeError
  end.

(** [v[0]]; the keys of a JSON object are strings, so [0] is not one. *)
Definition item0 (v : Val) : outcome Val :=
  match v with
  | VStr (String c _) => Return (VStr (String c EmptyString))
  | VList (x :: _) => Return x
  | VStr EmptyString => Throw IndexError
  | VList [] => Throw IndexError
  | VDict _ => Throw (KeyError "0")
  | _ => Throw TypeError
  end.

(** [tag_type == name] *)
Definition is_str (v : Val) (name : string) : bool :=
  match v with
  | VStr s => String.eqb s name
  | _ => false
  end.

(** The dictionary after [j.pop(k)]. *)
Fixpoint without (k : string) (d : dict Val) : dict Val :=
  match d with
  | [] => []
  | (k', v) :: d' => if String.eqb k k' then d' else (k', v) :: without k d'
  end.

(** [j[key][0]] when [len(j[key]) == 1], else [j] itself. *)
Definition only_or_whole (key : string) (j : dict Val) : outcome Val :=
  match Py.get key j with
  | None => Throw (KeyError key)
  | Some l =>
      match py_len l with
      | Throw e => Throw e
      | Return n => if Nat.eqb n 1 then item0 l else Return (VDict j)
      end
  end.

(** The value appended to [out] for a region without its type
    (lines 386-391). *)
Definition pretty_item (tag_type : Val) (j : dict Val) : outcome Val :=
  if is_str tag_type "Choices" then only_or_whole "choices" j
  else if is_str tag_type "TextArea" then only_or_whole "text" j
  else Return (VDict j).

(** The [for] loop of lines 383-391: [out] and the last [tag_type]. *)
Fixpoint prettify_loop (v : list (dict Val)) (out : list Val) (tag_type : Val)
  : outcome (list Val * Val) :=
  match v with
  | [] => Return (out, tag_type)
  | i :: rest =>
      match Py.get "type" i with
      | None => Throw (KeyError "type")
      | Some tag_type' =>
          match pretty_item tag_type' (without "type" i) with
          | Throw e => Throw e
          | Return o => prettify_loop rest (out ++ [o])%list tag_type'
          end
      end
  end.

Definition prettify_result (v : list (dict Val)) : outcome Val :=
  match prettify_loop v [] VNone with
  | Throw e => Throw e
  | Return (out, tag_type) =>
      if (is_str tag_type "Choices" || is_str tag_type "TextArea")
         && Nat.eqb (List.length out) 1
      then match out with
           | o :: _ => Return o
           | [] => Throw IndexError
           end
      else Return (VList out)
  end.

End Util.

(** ** Ghost definitions for the further properties *)

Module More.

Import Tagger.

(** Text whose characters are below code point 128; there a character
    of the model is a character of Python's [str], [String.length] is
    [len] and [is_space] is [str.isspace]. *)
Definition is_ascii (c : ascii) : bool := Nat.ltb (nat_of_ascii c) 128.

Fixpoint ascii_text (s : string) : bool :=
  match s with
  | EmptyString => true
  | String c s' => is_ascii c && ascii_text s'
  end.

(** No whitespace character occurs in the string. *)
Fixpoint no_space (s : string) : bool :=
  match s with
  | EmptyString => true
  | String c s' => negb (is_space c) && no_space s'
  end.

(** A word as [text.split()] yields them: not empty, no whitespace. *)
Definition is_word (s : string) : bool :=
  negb (String.eqb s "") && no_space s.

(** The tokenizer contract: tokens are not empty and every token ends
    before all later ones start. *)
Fixpoint separated (toks : list Token) : bool :=
  match toks with
  | [] => true
  | t :: rest =>
      (0 <? Z.of_nat (String.length (fst t)))
      && forallb (fun u => snd t + Z.of_nat (String.length (fst t)) <=? snd u) rest
      && separated rest
  end.

(** Two cursors on the same span with the same spans left. *)
Definition same_fields (a b : Cursor) : Prop :=
  span a = span b /\ span_start a = span_start b
  /\ span_end a = span_end b /\ spans a = spans b.

(** The key the sort uses for a span with a [start]. *)
Definition with_key (sp : Span) : Z * Span :=
  (match start sp with Some z => z | None => 0 end, sp).

(** The rule chosen among [whenTagName], [whenLabelValue] and
    [whenChoiceValue]: the first that is present and not empty. *)
Definition when_rule (n : Config.Node) : option Config.Conditional :=
  match Config.attr "whenTagName" n with
  | Some (String c s) => Some (Config.mkCond "tag" (String c s))
  | _ =>
      match Config.attr "whenLabelValue" n with
      | Some (String c s) => Some (Config.mkCond "label" (String c s))
      | _ =>
          match Config.attr "whenChoiceValue" n with
          | Some (String c s) => Some (Config.mkCond "choice" (String c s))
          | _ => None
          end
      end
  end.

(** The conditional rule of an output tag: none unless [perRegion] is
    ["true"]. *)
Definition rule_of (n : Config.Node) : option Config.Conditional :=
  match Config.attr "perRegion" n with
  | Some "true" => when_rule n
  | _ => None
  end.

(** The character occurs in the string. *)
Fixpoint has_char (ch : ascii) (s : string) : bool :=
  match s with
  | EmptyString => false
  | String c s' => Ascii.eqb c ch || has_char ch s'
  end.

(** Only whitespace characters occur in the string. *)
Fixpoint all_space (s : string) : bool :=
  match s with
  | EmptyString => true
  | String c s' => is_space c && all_space s'
  end.

(** [text[start:start+len(token)]] for a token of [tokenize]. *)
Definition text_at (text : string) (t : Token) : string :=
  String.substring (Z.to_nat (snd t)) (String.length (fst t)) text.

End More.

(* ================================================================= *)
(** * Part II: properties *)
(* ================================================================= *)

Lemma bind_inv {A B : Type} (c : result A) (k : A -> result B) (b : B) :
  Py.bind c k = Ok b -> exists a, c = Ok a /\ k a = Ok b.
Proof.
  destruct c as [a|e]; simpl; intros H; [exists a; auto | discriminate].
Qed.

Ltac splits := repeat match goal with |- _ /\ _ => split end.

(** ** SpanTagger *)

Module TaggerFacts.

Import Tagger.

Lemma load_ready (sp : Span) (rest : list Span) :
  has_bounds sp = true ->
  forallb has_bounds rest = true ->
  exists st, load sp rest = Ok st /\ ready st /\ span st = sp
             /\ prefix st = "B-" /\ spans st = rest.
Proof.
  unfold has_bounds, load, item_start, item_end.
  destruct (start sp) as [s|] eqn:Hs; [|discriminate].
  destruct (end_ sp) as [e|] eqn:He; [|discriminate].
  intros _ Hrest. simpl. eexists; split; [reflexivity|].
  unfold ready; simpl. repeat split; auto.
  rewrite He. f_equal. lia.
Qed.

(** The [while] loop stops on a loaded cursor: either the one it was
    entered with, or a span further down the list with a fresh [B-]. *)
Lemma pop_spans_spec (ts : Z) :
  forall (rest : list Span) (st : Cursor),
    ready st -> spans st = rest ->
    exists c, pop_spans ts st rest = Ok c /\ ready c
      /\ (c = st
          \/ (prefix c = "B-" /\ (List.length (spans c) < List.length rest)%nat
              /\ In (span c) rest))
      /\ incl (spans c) rest
      /\ (ts <= span_end c \/ spans c = []).
Proof.
  induction rest as [|sp rest' IH]; intros st Hst Hsp.
  - exists st. simpl. splits; auto.
    rewrite Hsp. apply incl_refl.
  - destruct Hst as (_ & _ & Hall). rewrite Hsp in Hall. simpl in Hall.
    apply andb_true_iff in Hall. destruct Hall as [Hb Hall].
    destruct (load_ready sp rest' Hb Hall) as (st1 & Hl & Hr1 & Hs1 & Hp1 & Hsp1).
    simpl. rewrite Hl. simpl.
    destruct (ts <=? span_end st1) eqn:Hle.
    + exists st1. splits; auto.
      * right. rewrite Hsp1, Hs1. simpl. splits; auto.
      * rewrite Hsp1. apply incl_tl, incl_refl.
      * left. apply Z.leb_le; assumption.
    + destruct (IH st1 Hr1 Hsp1) as (c & Hc & Hrc & Hch & Hincl & Hstop).
      exists c. splits; auto.
      * right. destruct Hch as [->|(Hp & Hlen & Hin)].
        -- rewrite Hsp1, Hs1. simpl. splits; auto.
        -- simpl. splits; auto.
      * apply incl_tl; assumption.
Qed.

Lemma advance_spec (st : Cursor) (ts : Z) :
  ready st ->
  exists c, advance st ts = Ok c /\ ready c
    /\ (c = st
        \/ (prefix c = "B-"
            /\ (List.length (spans c) < List.length (spans st))%nat
            /\ In (span c) (spans st)))
    /\ incl (spans c) (spans st)
    /\ (ts <= span_end c \/ spans c = []).
Proof.
  intros Hst. unfold advance.
  destruct (ts >? span_end st) eqn:Hgt.
  - apply pop_spans_spec; auto.
  - exists st. splits; auto.
    + apply incl_refl.
    + left. rewrite Z.gtb_ltb in Hgt. apply Z.ltb_ge in Hgt. assumption.
Qed.

(** Lines 106-112 never raise: the tag is ["O"], or the prefix and the
    first label when the token is hit; only the prefix can change. *)
Lemma tag_token_spec (c : Cursor) (token : string) (ts : Z) :
  exists tag st2,
    tag_token c token ts = Ok (tag, st2)
    /\ span st2 = span c /\ span_start st2 = span_start c
    /\ span_end st2 = span_end c /\ spans st2 = spans c
    /\ (hits c (token, ts) = false -> tag = "O" /\ prefix st2 = prefix c)
    /\ (hits c (token, ts) = true ->
        exists l ls, labels (span c) = Some (l :: ls)
                     /\ tag = String.append (prefix c) l /\ prefix st2 = "I-").
Proof.
  unfold tag_token, hits. simpl.
  destruct (outside c (token_end_of token ts)) eqn:Hout; simpl.
  - exists "O", c. splits; auto. discriminate.
  - destruct (overlaps c ts (token_end_of token ts)) eqn:Hov.
    + unfold outside in Hout.
      apply orb_false_iff in Hout. destruct Hout as [_ Hlab].
      apply negb_false_iff in Hlab.
      unfold labels_truthy in Hlab. unfold first_label.
      destruct (labels (span c)) as [[|l ls]|] eqn:Hl; try discriminate.
      simpl. eexists; eexists; split; [reflexivity|]. simpl.
      splits; auto; try discriminate.
      intros _. exists l, ls. auto.
    + exists "O", c. splits; auto. discriminate.
Qed.

Lemma ready_after_tag (c st2 : Cursor) :
  ready c -> span st2 = span c -> span_start st2 = span_start c ->
  span_end st2 = span_end c -> spans st2 = spans c -> ready st2.
Proof.
  unfold ready. intros (H1 & H2 & H3) -> -> -> ->. auto.
Qed.

Lemma same_span_refl (c : Cursor) : same_span c c = true.
Proof. unfold same_span. apply Nat.eqb_refl. Qed.

(** The sweep from a ready cursor never raises, returns the token
    texts unchanged with one tag each, and satisfies [token_facts] at
    every position. *)
Lemma sweep_spec :
  forall (toks : list Token) (st : Cursor),
    ready st ->
    exists tags cs,
      sweep st toks = Ok (map fst toks, tags)
      /\ cursors st toks = Ok cs
      /\ List.length tags = List.length toks
      /\ List.length cs = List.length toks
      /\ forall j tok c,
          nth_error toks j = Some tok -> nth_error cs j = Some c ->
          token_facts st toks cs tags j tok c.
Proof.
  induction toks as [|[token ts] toks IH]; intros st Hst.
  - exists [], []. simpl. splits; auto.
    intros [|j] tok c H; discriminate.
  - destruct (advance_spec st ts Hst) as (c0 & Hadv & Hr0 & Hch & Hincl & Hstop).
    destruct (tag_token_spec c0 token ts)
      as (tag0 & st2 & Htag & Hsp & Hss & Hse & Hsps & Hmiss & Hhit).
    assert (Hr2 : ready st2) by (eapply ready_after_tag; eauto).
    destruct (IH st2 Hr2) as (tags & cs & Hsw & Hcs & Hlt & Hlc & Hall).
    exists (tag0 :: tags), (c0 :: cs).
    simpl. rewrite Hadv. simpl. rewrite Htag. simpl.
    rewrite Hsw, Hcs. simpl.
    splits; auto.
    intros [|j] tok c Htok Hc; simpl in Htok, Hc.
    + inversion Htok; subst tok. inversion Hc; subst c. clear Htok Hc.
      unfold token_facts. simpl.
      splits; auto.
      * destruct Hch as [->|(_ & _ & Hin)]; auto.
      * destruct Hch as [->|(_ & Hlen & _)]; lia.
      * unfold tagged_before. simpl.
        destruct Hch as [->|(Hp & Hlen & _)].
        -- rewrite same_span_refl. reflexivity.
        -- unfold same_span.
           destruct (Nat.eqb_spec (List.length (spans c0)) (List.length (spans st))); [lia|auto].
      * intros Hh. destruct (Hmiss Hh) as [-> _]. reflexivity.
      * intros Hh. destruct (Hhit Hh) as (l & ls & Hl & -> & _).
        exists l, ls. auto.
    + destruct (Hall j tok c Htok Hc) as (Hrc & Hin & Hlen & Hst' & Hpre & Hm & Hh).
      assert (Hlen0 : (List.length (spans c0) <= List.length (spans st))%nat)
        by (destruct Hch as [->|(_ & Hl & _)]; lia).
      unfold token_facts. simpl.
      splits; auto.
      * rewrite Hsp, Hsps in Hin. destruct Hin as [Hin|Hin].
        -- rewrite <- Hin. destruct Hch as [->|(_ & _ & Hin')]; auto.
        -- right. apply Hincl. assumption.
      * rewrite Hsps in Hlen. lia.
      * rewrite Hpre. unfold tagged_before. simpl.
        fold (tagged_before cs toks c j).
        destruct (tagged_before cs toks c j); [rewrite orb_true_r; reflexivity|].
        rewrite orb_false_r.
        unfold same_span in *. rewrite Hsps in *.
        destruct (Nat.eqb_spec (List.length (spans c)) (List.length (spans c0))) as [E|E].
        -- rewrite <- E, Nat.eqb_refl. simpl.
           destruct (hits c0 (token, ts)) eqn:Hh0.
           ++ destruct (Hhit eq_refl) as (_ & _ & _ & _ & ->). reflexivity.
           ++ destruct (Hmiss eq_refl) as [_ ->].
              destruct Hch as [->|(Hp & Hl & _)].
              ** rewrite E, Nat.eqb_refl. reflexivity.
              ** rewrite Hp.
                 destruct (Nat.eqb_spec (List.length (spans c)) (List.length (spans st))); [lia|auto].
        -- destruct (Nat.eqb_spec (List.length (spans c0)) (List.length (spans c))) as [E'|E'];
             [congruence|]. simpl.
           destruct (Nat.eqb_spec (List.length (spans c)) (List.length (spans st))); [lia|auto].
Qed.

(** *** Sorting and the first cursor *)

Lemma keyed_ok (l : list Span) :
  forallb has_bounds l = true ->
  exists kl, keyed l = Ok kl /\ map snd kl = l.
Proof.
  induction l as [|sp l IH]; simpl; intros H.
  - exists []. auto.
  - apply andb_true_iff in H. destruct H as [Hb Hl].
    destruct (IH Hl) as (kl & Hk & Hm).
    unfold has_bounds in Hb. unfold item_start.
    destruct (start sp) as [s|]; [|discriminate].
    exists ((s, sp) :: kl). simpl. rewrite Hk. simpl. rewrite Hm. auto.
Qed.

Lemma insert_by_key_perm (x : Z * Span) (l : list (Z * Span)) :
  Permutation (insert_by_key x l) (x :: l).
Proof.
  induction l as [|y l IH]; simpl.
  - apply Permutation_refl.
  - destruct (fst x <=? fst y).
    + apply Permutation_refl.
    + eapply perm_trans; [apply perm_skip, IH | apply perm_swap].
Qed.

Lemma stable_sort_perm (l : list (Z * Span)) : Permutation (stable_sort l) l.
Proof.
  induction l as [|x l IH]; simpl.
  - apply perm_nil.
  - eapply perm_trans; [apply insert_by_key_perm | apply perm_skip, IH].
Qed.

(** The sorted list is in ascending order of [start]. *)
Lemma insert_by_key_sorted (x : Z * Span) (l : list (Z * Span)) :
  Sorted (fun a b => fst a <= fst b) l ->
  Sorted (fun a b => fst a <= fst b) (insert_by_key x l).
Proof.
  induction l as [|y l IH]; simpl; intros H.
  - constructor; constructor.
  - destruct (fst x <=? fst y) eqn:E.
    + constructor; [assumption|]. constructor. apply Z.leb_le. assumption.
    + apply Z.leb_gt in E. inversion H as [|? ? Hs Hh]; subst.
      constructor; [apply IH; assumption|].
      destruct l as [|z l]; simpl.
      * constructor. lia.
      * destruct (fst x <=? fst z); constructor; [lia|].
        inversion Hh. assumption.
Qed.

Lemma stable_sort_sorted (l : list (Z * Span)) :
  Sorted (fun a b => fst a <= fst b) (stable_sort l).
Proof.
  induction l as [|x l IH]; simpl.
  - constructor.
  - apply insert_by_key_sorted. assumption.
Qed.

Lemma forallb_perm {A : Type} (f : A -> bool) (l l' : list A) :
  Permutation l l' -> forallb f l = true -> forallb f l' = true.
Proof.
  intros Hp H. apply forallb_forall. intros x Hx.
  rewrite forallb_forall in H. apply H.
  apply Permutation_in with (l := l'); [apply Permutation_sym|]; assumption.
Qed.

Lemma spans_usable_inv (l : list Span) :
  spans_usable l = true -> l <> [] /\ forallb has_bounds l = true.
Proof.
  destruct l; simpl; [discriminate|]. intros H. split; [discriminate|assumption].
Qed.

(** Under the guard, sorting and loading the first span succeed, and
    the cursor together with its list holds exactly the spans given. *)
Lemma first_cursor (l : list Span) :
  spans_usable l = true ->
  exists sp rest st,
    sorted_by_start l = Ok (sp :: rest)
    /\ load sp rest = Ok st
    /\ ready st /\ prefix st = "B-"
    /\ Permutation (span st :: spans st) l.
Proof.
  intros H. destruct (spans_usable_inv l H) as [Hne Hall].
  destruct (keyed_ok l Hall) as (kl & Hk & Hm).
  unfold sorted_by_start. rewrite Hk. simpl.
  assert (Hp : Permutation (map snd (stable_sort kl)) l).
  { rewrite <- Hm. apply Permutation_map, stable_sort_perm. }
  destruct (map snd (stable_sort kl)) as [|sp rest] eqn:Hs.
  - apply Permutation_nil in Hp. congruence.
  - assert (Hall' : forallb has_bounds (sp :: rest) = true)
      by (eapply forallb_perm; [apply Permutation_sym; eassumption|assumption]).
    simpl in Hall'. apply andb_true_iff in Hall'. destruct Hall' as [Hb Hr].
    destruct (load_ready sp rest Hb Hr) as (st & Hl & Hrd & Hsp & Hpre & Hsps).
    exists sp, rest, st. splits; auto.
    rewrite Hsp, Hsps. assumption.
Qed.

(** The span-aware branch as a whole: it returns, and every token
    satisfies [token_facts] for the first cursor. *)
Lemma run_spec (span_tokenize : string -> list (nat * nat))
      (text : string) (l : list Span) :
  spans_usable l = true ->
  exists st tags cs,
    ready st /\ prefix st = "B-"
    /\ Permutation (span st :: spans st) l
    /\ create_tokens_and_tags span_tokenize text l
       = Ok (map fst (tokens_and_idx_of span_tokenize text), tags)
    /\ cursor_trace span_tokenize text l = Ok cs
    /\ cursors st (tokens_and_idx_of span_tokenize text) = Ok cs
    /\ List.length tags = List.length (tokens_and_idx_of span_tokenize text)
    /\ List.length cs = List.length (tokens_and_idx_of span_tokenize text)
    /\ forall j tok c,
        nth_error (tokens_and_idx_of span_tokenize text) j = Some tok ->
        nth_error cs j = Some c ->
        token_facts st (tokens_and_idx_of span_tokenize text) cs tags j tok c.
Proof.
  intros H.
  destruct (first_cursor l H) as (sp & rest & st & Hs & Hl & Hrd & Hpre & Hperm).
  destruct (sweep_spec (tokens_and_idx_of span_tokenize text) st Hrd)
    as (tags & cs & Hsw & Hcs & Hlt & Hlc & Hall).
  exists st, tags, cs.
  unfold create_tokens_and_tags, cursor_trace.
  rewrite H, Hs. simpl. rewrite Hl. simpl.
  splits; auto.
Qed.

(** [create_tokens_and_tags] never raises, whatever the spans are. *)
Lemma create_tokens_and_tags_total (span_tokenize : string -> list (nat * nat))
      (text : string) (l : list Span) :
  exists tags,
    create_tokens_and_tags span_tokenize text l
    = Ok (map fst (tokens_and_idx_of span_tokenize text), tags)
    /\ List.length tags = List.length (tokens_and_idx_of span_tokenize text).
Proof.
  destruct (spans_usable l) eqn:H.
  - destruct (run_spec span_tokenize text l H)
      as (st & tags & cs & _ & _ & _ & Hrun & _ & _ & Hlen & _).
    exists tags. auto.
  - unfold create_tokens_and_tags. rewrite H.
    eexists. split; [reflexivity|].
    rewrite repeat_length, length_map. reflexivity.
Qed.

(** *** Once the list of spans is used up the cursor stays put *)

Lemma advance_no_spans (st : Cursor) (ts : Z) :
  spans st = [] -> advance st ts = Ok st.
Proof.
  intros H. unfold advance. rewrite H. simpl.
  destruct (ts >? span_end st); reflexivity.
Qed.

Lemma cursors_cons_inv (st : Cursor) (token : string) (ts : Z)
      (toks : list Token) (cs : list Cursor) :
  cursors st ((token, ts) :: toks) = Ok cs ->
  exists c0 tag st2 cs',
    advance st ts = Ok c0 /\ tag_token c0 token ts = Ok (tag, st2)
    /\ cursors st2 toks = Ok cs' /\ cs = c0 :: cs'.
Proof.
  simpl. intros H.
  apply bind_inv in H. destruct H as (c0 & Ha & H).
  apply bind_inv in H. destruct H as ([tag st2] & Ht & H).
  apply bind_inv in H. destruct H as (cs' & Hc & H).
  inversion H. exists c0, tag, st2, cs'. auto.
Qed.

Lemma tag_token_keeps (c st2 : Cursor) (token tag : string) (ts : Z) :
  tag_token c token ts = Ok (tag, st2) ->
  span_end st2 = span_end c /\ spans st2 = spans c.
Proof.
  intros H.
  destruct (tag_token_spec c token ts) as (tag' & st' & H' & _ & _ & He & Hs & _).
  rewrite H in H'. inversion H'. subst. auto.
Qed.

Lemma cursors_frozen :
  forall (toks : list Token) (st : Cursor) (cs : list Cursor),
    cursors st toks = Ok cs -> spans st = [] ->
    forall j c, nth_error cs j = Some c ->
                span_end c = span_end st /\ spans c = [].
Proof.
  induction toks as [|[token ts] toks IH]; intros st cs Hcs Hsp j c Hj.
  - simpl in Hcs. inversion Hcs. subst. destruct j; discriminate.
  - apply cursors_cons_inv in Hcs.
    destruct Hcs as (c0 & tag & st2 & cs' & Ha & Ht & Hc & ->).
    rewrite (advance_no_spans st ts Hsp) in Ha. inversion Ha. subst c0.
    destruct (tag_token_keeps _ _ _ _ _ Ht) as [He Hs].
    destruct j as [|j]; simpl in Hj.
    + inversion Hj. subst. auto.
    + rewrite Hsp in Hs.
      destruct (IH st2 cs' Hc Hs j c Hj) as [E1 E2].
      split; [congruence|assumption].
Qed.

Lemma cursors_after :
  forall (toks : list Token) (st : Cursor) (cs : list Cursor) (i j : nat)
         (ci cj : Cursor),
    cursors st toks = Ok cs ->
    nth_error cs i = Some ci -> nth_error cs j = Some cj ->
    (i <= j)%nat -> spans ci = [] ->
    span_end cj = span_end ci.
Proof.
  induction toks as [|[token ts] toks IH]; intros st cs i j ci cj Hcs Hi Hj Hle Hsp.
  - simpl in Hcs. inversion Hcs. subst. destruct i; discriminate.
  - apply cursors_cons_inv in Hcs.
    destruct Hcs as (c0 & tag & st2 & cs' & Ha & Ht & Hc & ->).
    destruct (tag_token_keeps _ _ _ _ _ Ht) as [He Hs].
    destruct i as [|i]; simpl in Hi.
    + inversion Hi. subst ci.
      destruct j as [|j]; simpl in Hj.
      * inversion Hj. reflexivity.
      * rewrite Hsp in Hs.
        destruct (cursors_frozen toks st2 cs' Hc Hs j cj Hj) as [E _].
        congruence.
    + destruct j as [|j]; [lia|]. simpl in Hj.
      apply (IH st2 cs' i j ci cj); auto. lia.
Qed.

Lemma ascending_nth :
  forall (toks : list Token) (i j : nat) (ti tj : Token),
    ascending toks = true -> (i <= j)%nat ->
    nth_error toks i = Some ti -> nth_error toks j = Some tj ->
    snd ti <= snd tj.
Proof.
  induction toks as [|t toks IH]; intros i j ti tj Ha Hle Hi Hj.
  - destruct i; discriminate.
  - simpl in Ha. apply andb_true_iff in Ha. destruct Ha as [Hhd Htl].
    destruct i as [|i]; simpl in Hi.
    + inversion Hi. subst t.
      destruct j as [|j]; simpl in Hj.
      * inversion Hj. lia.
      * rewrite forallb_forall in Hhd.
        apply Z.leb_le. apply Hhd. eapply nth_error_In; eassumption.
    + destruct j as [|j]; [lia|]. simpl in Hj.
      apply (IH i j); auto. lia.
Qed.

Lemma hits_needs_overlap (c : Cursor) (tok : Token) :
  snd tok > span_end c -> hits c tok = false.
Proof.
  intros H. unfold hits, overlaps.
  destruct (span_end c >=? snd tok) eqn:E.
  - rewrite Z.geb_leb in E. apply Z.leb_le in E. lia.
  - rewrite !andb_false_r. reflexivity.
Qed.

(** *** The claims on [create_tokens_and_tags] *)

(** C1. During span-aware tagging every token is tagged from the
    current span, the span of the cursor [c] reached after the advance
    of lines 94-101. With [span_end = span.end - 1] and
    [token_end = token_start + len(token) - 1]: if the current span has
    a non-empty [labels] list, [span_start <= token_end] and
    [span_end >= token_start], then the tag is [prefix + labels[0]].
    In particular a labeled current span whose exclusive end is
    [token_start + 1], so that it covers the first character of the
    token and nothing after it, still tags the token. *)
Theorem overlapping_token_gets_prefix_and_first_label :
  forall (span_tokenize : string -> list (nat * nat)) (text : string)
         (l : list Span),
    spans_usable l = true ->
    exists tokens tags cs,
      create_tokens_and_tags span_tokenize text l = Ok (tokens, tags)
      /\ cursor_trace span_tokenize text l = Ok cs
      /\ List.length cs = List.length (tokens_and_idx_of span_tokenize text)
      /\ (forall j token token_start c s e lab labs,
            nth_error (tokens_and_idx_of span_tokenize text) j
            = Some (token, token_start) ->
            nth_error cs j = Some c ->
            start (span c) = Some s -> end_ (span c) = Some e ->
            labels (span c) = Some (lab :: labs) ->
            s <= token_start + Z.of_nat (String.length token) - 1 ->
            e - 1 >= token_start ->
            nth_error tags j = Some (String.append (prefix c) lab))
      /\ (forall j token token_start c s lab labs,
            nth_error (tokens_and_idx_of span_tokenize text) j
            = Some (token, token_start) ->
            nth_error cs j = Some c ->
            start (span c) = Some s ->
            end_ (span c) = Some (token_start + 1) ->
            labels (span c) = Some (lab :: labs) ->
            s <= token_start -> token <> "" ->
            nth_error tags j = Some (String.append (prefix c) lab)).
Proof.
  intros span_tokenize text l H.
  destruct (run_spec span_tokenize text l H)
    as (st & tags & cs & _ & _ & _ & Hrun & Htr & _ & _ & Hlc & Hall).
  assert (Hgen : forall j token token_start c s e lab labs,
            nth_error (tokens_and_idx_of span_tokenize text) j
            = Some (token, token_start) ->
            nth_error cs j = Some c ->
            start (span c) = Some s -> end_ (span c) = Some e ->
            labels (span c) = Some (lab :: labs) ->
            s <= token_start + Z.of_nat (String.length token) - 1 ->
            e - 1 >= token_start ->
            nth_error tags j = Some (String.append (prefix c) lab)).
  { intros j token ts c s e lab labs Htok Hc Hs He Hl Hle Hge.
    destruct (Hall j (token, ts) c Htok Hc)
      as ((Rs & Re & _) & _ & _ & _ & _ & _ & Hhit).
    rewrite Hs in Rs. inversion Rs as [Es].
    rewrite He in Re. inversion Re as [Ee].
    assert (Hh : hits c (token, ts) = true).
    { assert (E1 : (ts + Z.of_nat (String.length token) - 1 <? span_start c) = false)
        by (apply Z.ltb_ge; lia).
      assert (E2 : (span_start c <=? ts + Z.of_nat (String.length token) - 1) = true)
        by (apply Z.leb_le; lia).
      assert (E3 : (span_end c >=? ts) = true)
        by (rewrite Z.geb_leb; apply Z.leb_le; lia).
      unfold hits, outside, overlaps, span_truthy, labels_truthy, token_end_of.
      simpl. rewrite Hs, Hl, E1, E2, E3. reflexivity. }
    destruct (Hhit Hh) as (lab' & labs' & Hl' & Ht).
    rewrite Hl in Hl'. inversion Hl'. subst. assumption. }
  exists (map fst (tokens_and_idx_of span_tokenize text)), tags, cs.
  splits; auto.
  intros j token ts c s lab labs Htok Hc Hs He Hl Hle Hne.
  apply (Hgen j token ts c s (ts + 1) lab labs); auto.
  - destruct token; [congruence|]. simpl String.length. lia.
  - lia.
Qed.

(** C5. When the span list is empty, or some span of it has no
    [start] or no [end], the call returns (it does not raise) the
    token texts of the tokenizer together with one ["O"] per token.
    Tagging ["hello world"] with no span gives [["hello"; "world"]]
    and [["O"; "O"]]. *)
Theorem unusable_spans_fall_back_to_all_O :
  forall (span_tokenize : string -> list (nat * nat)) (text : string)
         (l : list Span),
    l = [] \/ (exists sp, In sp l /\ (start sp = None \/ end_ sp = None)) ->
    exists tokens tags,
      create_tokens_and_tags span_tokenize text l = Ok (tokens, tags)
      /\ tokens = map fst (tokens_and_idx_of span_tokenize text)
      /\ List.length tags = List.length tokens
      /\ (forall t, In t tags -> t = "O").
Proof.
  intros span_tokenize text l H.
  assert (Hu : spans_usable l = false).
  { destruct H as [->|(sp & Hin & Hmiss)]; [reflexivity|].
    destruct l as [|a l]; [reflexivity|]. unfold spans_usable.
    destruct (forallb has_bounds (a :: l)) eqn:E; [|reflexivity].
    rewrite forallb_forall in E. specialize (E sp Hin).
    unfold has_bounds in E.
    destruct Hmiss as [Hm|Hm]; rewrite Hm in E;
      [discriminate | destruct (start sp); discriminate]. }
  unfold create_tokens_and_tags. rewrite Hu.
  eexists; eexists; split; [reflexivity|].
  splits; auto.
  - apply repeat_length.
  - intros t Ht. apply repeat_spec in Ht. assumption.
Qed.


(** C7. During span-aware tagging a token whose start offset is
    greater than [end - 1] for every span of the batch is tagged
    ["O"]. With the tokens in ascending order of start offset, once a
    token has found the list of spans used up, with its start beyond
    the end of the last span, that token and every later one are
    tagged ["O"]. *)
Theorem tokens_past_every_span_are_O :
  forall (span_tokenize : string -> list (nat * nat)) (text : string)
         (l : list Span),
    spans_usable l = true ->
    exists tokens tags cs,
      create_tokens_and_tags span_tokenize text l = Ok (tokens, tags)
      /\ cursor_trace span_tokenize text l = Ok cs
      /\ List.length cs = List.length (tokens_and_idx_of span_tokenize text)
      /\ (forall j token token_start,
            nth_error (tokens_and_idx_of span_tokenize text) j
            = Some (token, token_start) ->
            (forall sp e, In sp l -> end_ sp = Some e -> token_start > e - 1) ->
            nth_error tags j = Some "O")
      /\ (ascending (tokens_and_idx_of span_tokenize text) = true ->
          forall i j ti tj ci,
            (i <= j)%nat ->
            nth_error (tokens_and_idx_of span_tokenize text) i = Some ti ->
            nth_error (tokens_and_idx_of span_tokenize text) j = Some tj ->
            nth_error cs i = Some ci ->
            spans ci = [] -> snd ti > span_end ci ->
            nth_error tags j = Some "O").
Proof.
  intros span_tokenize text l H.
  destruct (run_spec span_tokenize text l H)
    as (st & tags & cs & _ & _ & Hperm & Hrun & Htr & Hcs & Hlen & Hlc & Hall).
  exists (map fst (tokens_and_idx_of span_tokenize text)), tags, cs.
  splits; auto.
  - intros j token ts Htok Hpast.
    destruct (nth_error cs j) as [c|] eqn:Hc.
    + destruct (Hall j (token, ts) c Htok Hc)
        as ((_ & Re & _) & Hin & _ & _ & _ & Hm & _).
      apply Hm. apply hits_needs_overlap. simpl.
      assert (Hin' : In (span c) l) by (eapply Permutation_in; eassumption).
      specialize (Hpast (span c) (span_end c + 1) Hin' Re). lia.
    + apply nth_error_None in Hc.
      assert (j < List.length (tokens_and_idx_of span_tokenize text))%nat
        by (apply nth_error_Some; congruence).
      lia.
  - intros Hasc i j ti tj ci Hle Hi Hj Hci Hsp Hgt.
    destruct (nth_error cs j) as [cj|] eqn:Hcj.
    + destruct (Hall j tj cj Hj Hcj) as (_ & _ & _ & _ & _ & Hm & _).
      apply Hm. apply hits_needs_overlap.
      rewrite (cursors_after _ st cs i j ci cj Hcs Hci Hcj Hle Hsp).
      pose proof (ascending_nth _ i j ti tj Hasc Hle Hi Hj). lia.
    + apply nth_error_None in Hcj.
      assert (j < List.length (tokens_and_idx_of span_tokenize text))%nat
        by (apply nth_error_Some; congruence).
      lia.
Qed.

(** *** Concrete runs *)

(** The span [0, 4) labelled [X, Y] over ["ab cd"] ends on the first
    character of ["cd"], which is tagged [I-X] all the same. *)
Lemma overlapping_token_witness :
  spans_usable [mkSpan (Some 0) (Some 4) (Some ["X"; "Y"])] = true
  /\ exists tokens tags,
      create_tokens_and_tags whitespace_spans "ab cd"
        [mkSpan (Some 0) (Some 4) (Some ["X"; "Y"])] = Ok (tokens, tags)
      /\ nth_error tags 0 = Some "B-X"
      /\ nth_error tags 1 = Some "I-X".
Proof.
  split; [reflexivity|].
  destruct (overlapping_token_gets_prefix_and_first_label whitespace_spans "ab cd"
              [mkSpan (Some 0) (Some 4) (Some ["X"; "Y"])] eq_refl)
    as (tokens & tags & cs & Hrun & Htr & _ & Hgen & Hedge).
  exists tokens, tags. split; [assumption|].
  vm_compute in Htr. injection Htr as E. subst cs.
  split.
  - apply (Hgen 0%nat "ab" 0
             (mkCursor (mkSpan (Some 0) (Some 4) (Some ["X"; "Y"])) 0 3 "B-" [])
             0 4 "X" ["Y"]); try reflexivity; simpl; lia.
  - apply (Hedge 1%nat "cd" 3
             (mkCursor (mkSpan (Some 0) (Some 4) (Some ["X"; "Y"])) 0 3 "I-" [])
             0 "X" ["Y"]); try reflexivity; [lia | discriminate].
Defined.

(** No span, and a span without [end], over ["hello world"]. *)
Lemma fallback_witness :
  create_tokens_and_tags whitespace_spans "hello world" []
  = Ok (["hello"; "world"], ["O"; "O"])
  /\ exists tokens tags,
      create_tokens_and_tags whitespace_spans "hello world"
        [mkSpan (Some 0) None (Some ["X"])] = Ok (tokens, tags)
      /\ forall t, In t tags -> t = "O".
Proof.
  split.
  - destruct (unusable_spans_fall_back_to_all_O whitespace_spans "hello world" []
                (or_introl eq_refl)) as (tokens & tags & Hrun & Htok & Hlen & HO).
    rewrite Hrun, Htok. rewrite Htok in Hlen.
    destruct tags as [|a [|b [|c tags]]]; try discriminate Hlen.
    rewrite (HO a), (HO b); [reflexivity | right; left; reflexivity | left; reflexivity].
  - destruct (unusable_spans_fall_back_to_all_O whitespace_spans "hello world"
                [mkSpan (Some 0) None (Some ["X"])]) as (tokens & tags & Hrun & _ & _ & HO).
    + right. exists (mkSpan (Some 0) None (Some ["X"])).
      split; [left; reflexivity | right; reflexivity].
    + exists tokens, tags. split; assumption.
Defined.

(** The spec's examples of §8 on ["John lives in Paris"]. *)
Example basic_bio :
  create_tokens_and_tags whitespace_spans "John lives in Paris"
    [mkSpan (Some 0) (Some 4) (Some ["PER"])]
  = Ok (["John"; "lives"; "in"; "Paris"], ["B-PER"; "O"; "O"; "O"]).
Proof. reflexivity. Qed.

Example unlabeled_span_forces_O :
  create_tokens_and_tags whitespace_spans "John lives in Paris"
    [mkSpan (Some 0) (Some 4) (Some []); mkSpan (Some 0) (Some 4) (Some ["PER"])]
  = Ok (["John"; "lives"; "in"; "Paris"], ["O"; "O"; "O"; "O"]).
Proof. reflexivity. Qed.



(** The span [0, 2) over ["ab cd ef"]: the last two tokens start after
    its end. *)
Lemma tokens_past_every_span_witness :
  spans_usable [mkSpan (Some 0) (Some 2) (Some ["X"])] = true
  /\ ascending (tokens_and_idx_of whitespace_spans "ab cd ef") = true
  /\ exists tokens tags,
      create_tokens_and_tags whitespace_spans "ab cd ef"
        [mkSpan (Some 0) (Some 2) (Some ["X"])] = Ok (tokens, tags)
      /\ nth_error tags 1 = Some "O"
      /\ nth_error tags 2 = Some "O".
Proof.
  split; [reflexivity|]. split; [reflexivity|].
  destruct (tokens_past_every_span_are_O whitespace_spans "ab cd ef"
              [mkSpan (Some 0) (Some 2) (Some ["X"])] eq_refl)
    as (tokens & tags & cs & Hrun & Htr & _ & Hpast & Hdone).
  exists tokens, tags. splits; auto.
  - apply (Hpast 1%nat "cd" 3); [reflexivity|].
    intros sp e [<-|[]] He. simpl in He. injection He as <-. lia.
  - vm_compute in Htr. injection Htr as E. subst cs.
    apply (Hdone eq_refl 1%nat 2%nat ("cd", 3) ("ef", 6)
             (mkCursor (mkSpan (Some 0) (Some 2) (Some ["X"])) 0 1 "I-" []));
      try reflexivity; simpl; lia.
Defined.

End TaggerFacts.

(** ** ConfigParser *)

Module ConfigFacts.

Import Config.

(** *** Dictionaries *)

Lemma get_set_same {V : Type} (k : string) (v : V) (d : dict V) :
  Py.get k (Py.set k v d) = Some v.
Proof.
  induction d as [|[k' v'] d IH]; simpl.
  - rewrite String.eqb_refl. reflexivity.
  - destruct (String.eqb k k') eqn:E; simpl.
    + rewrite String.eqb_refl. reflexivity.
    + rewrite E. assumption.
Qed.

Lemma get_set_other {V : Type} (k k' : string) (v : V) (d : dict V) :
  k <> k' -> Py.get k' (Py.set k v d) = Py.get k' d.
Proof.
  intros Hne. induction d as [|[k0 v0] d IH]; simpl.
  - destruct (String.eqb_spec k' k); [congruence|reflexivity].
  - destruct (String.eqb_spec k k0) as [->|Hk]; simpl.
    + destruct (String.eqb_spec k' k0); [congruence|reflexivity].
    + destruct (String.eqb_spec k' k0); [reflexivity|assumption].
Qed.

Lemma keys_set_present {V : Type} (k : string) (v : V) (d : dict V) :
  Py.mem k d = true -> Py.keys (Py.set k v d) = Py.keys d.
Proof.
  unfold Py.mem. induction d as [|[k' v'] d IH]; simpl; [discriminate|].
  destruct (String.eqb_spec k k') as [->|Hk]; simpl; intros H.
  - reflexivity.
  - f_equal. apply IH. assumption.
Qed.

Lemma keys_set_absent {V : Type} (k : string) (v : V) (d : dict V) :
  Py.mem k d = false -> Py.keys (Py.set k v d) = (Py.keys d ++ [k])%list.
Proof.
  unfold Py.mem. induction d as [|[k' v'] d IH]; simpl; [reflexivity|].
  destruct (String.eqb_spec k k') as [->|Hk]; simpl; intros H.
  - discriminate.
  - f_equal. apply IH. assumption.
Qed.

Lemma mem_set {V : Type} (k k' : string) (v : V) (d : dict V) :
  Py.mem k' (Py.set k v d) = (String.eqb k' k || Py.mem k' d)%bool.
Proof.
  unfold Py.mem. destruct (String.eqb_spec k' k) as [->|Hne]; simpl.
  - rewrite get_set_same. reflexivity.
  - rewrite get_set_other by congruence. reflexivity.
Qed.

Lemma truthy_inv (o : option string) :
  Py.truthy o = true -> exists c s, o = Some (String c s).
Proof.
  destruct o as [[|c s]|]; simpl; try discriminate. eauto.
Qed.

Lemma in_set_In (x : string) (l : list string) :
  in_set x l = true <-> In x l.
Proof.
  unfold in_set. rewrite existsb_exists. split.
  - intros (y & Hy & E). apply String.eqb_eq in E. subst. assumption.
  - intros H. exists x. split; [assumption|apply String.eqb_refl].
Qed.

(** [split_on] cuts at every separator and nowhere else: joining the
    pieces gives the string back. *)
Lemma split_on_nonempty (sep : ascii) (s : string) : split_on sep s <> [].
Proof.
  destruct s as [|c s]; simpl; [discriminate|].
  destruct (Ascii.eqb c sep); [discriminate|].
  destruct (split_on sep s); discriminate.
Qed.

Lemma join_split_on (sep : ascii) (s : string) : join sep (split_on sep s) = s.
Proof.
  induction s as [|c s IH]; simpl; [reflexivity|].
  destruct (Ascii.eqb_spec c sep) as [->|Hne].
  - pose proof (split_on_nonempty sep s) as Hn.
    destruct (split_on sep s) as [|w ws]; [congruence|].
    simpl in *. rewrite IH. reflexivity.
  - pose proof (split_on_nonempty sep s) as Hn.
    destruct (split_on sep s) as [|w ws]; [congruence|].
    destruct ws as [|w' ws]; simpl in *; rewrite <- IH; reflexivity.
Qed.

(** *** The loop body never raises *)

Lemma item_of_truthy (k : string) (n : Node) :
  Py.truthy (attr k n) = true ->
  exists c s, attr k n = Some (String c s) /\ item k n = Ok (String c s).
Proof.
  intros H. destruct (truthy_inv _ H) as (c & s & E).
  exists c, s. unfold item. rewrite E. auto.
Qed.

Lemma conditionals_of_total (n : Node) :
  exists cond, conditionals_of n = Ok cond.
Proof.
  assert (Hwhen : exists cond,
    (if Py.truthy (attr "whenTagName" n) then
       v <- item "whenTagName" n ;; Ok (Some (mkCond "tag" v))
     else if Py.truthy (attr "whenLabelValue" n) then
       v <- item "whenLabelValue" n ;; Ok (Some (mkCond "label" v))
     else if Py.truthy (attr "whenChoiceValue" n) then
       v <- item "whenChoiceValue" n ;; Ok (Some (mkCond "choice" v))
     else Ok None) = Ok cond).
  { destruct (Py.truthy (attr "whenTagName" n)) eqn:E1.
    { destruct (item_of_truthy _ _ E1) as (c & s & _ & ->). simpl. eauto. }
    destruct (Py.truthy (attr "whenLabelValue" n)) eqn:E2.
    { destruct (item_of_truthy _ _ E2) as (c & s & _ & ->). simpl. eauto. }
    destruct (Py.truthy (attr "whenChoiceValue" n)) eqn:E3.
    { destruct (item_of_truthy _ _ E3) as (c & s & _ & ->). simpl. eauto. }
    eauto. }
  unfold conditionals_of.
  repeat match goal with
         | |- context [match ?x with _ => _ end] =>
             match x with
             | Py.truthy _ => fail 1
             | _ => destruct x; try (exists None; reflexivity)
             end
         end.
  exact Hwhen.
Qed.

(** What lines 269-293 do to the accumulators, by the class of the node. *)
Lemma classify_output (st : Acc) (n : Node) :
  _is_output_tag n = true ->
  exists c s toName cond,
    attr "name" n = Some (String c s)
    /\ attr "toName" n = Some toName /\ toName <> ""
    /\ classify st n
       = Ok (mkAcc (inputs st)
                   (Py.set (String c s) (mkOutput (tag n) (split_on "," toName) cond)
                           (outputs st))
                   (labels st) (log st)).
Proof.
  intros H. unfold classify. rewrite H.
  unfold _is_output_tag in H.
  apply andb_true_iff in H. destruct H as [H _].
  apply andb_true_iff in H. destruct H as [Hn Ht].
  destruct (item_of_truthy _ _ Hn) as (c & s & En & In').
  destruct (item_of_truthy _ _ Ht) as (c' & s' & Et & It).
  destruct (conditionals_of_total n) as (cond & Ec).
  exists c, s, (String c' s'), cond.
  rewrite It, Ec, In'. simpl. splits; auto. discriminate.
Qed.

Lemma classify_input (st : Acc) (n : Node) :
  input_only n = true ->
  exists c s value,
    attr "name" n = Some (String c s)
    /\ attr "value" n = Some value
    /\ classify st n
       = Ok (mkAcc (Py.set (String c s) (mkInput (tag n) (lstrip "$" value)) (inputs st))
                   (outputs st) (labels st) (log st)).
Proof.
  unfold input_only. intros H.
  apply andb_true_iff in H. destruct H as [Ho Hi].
  apply negb_true_iff in Ho.
  unfold classify. rewrite Ho, Hi.
  unfold _is_input_tag in Hi.
  apply andb_true_iff in Hi. destruct Hi as [Hn Hv].
  destruct (item_of_truthy _ _ Hn) as (c & s & En & In').
  destruct (item_of_truthy _ _ Hv) as (c' & s' & Ev & Iv).
  exists c, s, (String c' s').
  rewrite In', Iv. simpl. auto.
Qed.

Lemma classify_other (st : Acc) (n : Node) :
  _is_output_tag n = false -> _is_input_tag n = false ->
  classify st n = Ok st.
Proof.
  intros Ho Hi. unfold classify. rewrite Ho, Hi. reflexivity.
Qed.

Lemma classify_total (st : Acc) (n : Node) :
  exists st1, classify st n = Ok st1
              /\ labels st1 = labels st /\ log st1 = log st.
Proof.
  destruct (_is_output_tag n) eqn:Ho.
  - destruct (classify_output st n Ho) as (c & s & t & cond & _ & _ & _ & ->).
    eauto.
  - destruct (_is_input_tag n) eqn:Hi.
    + destruct (classify_input st n) as (c & s & v & _ & _ & ->).
      { unfold input_only. rewrite Ho, Hi. reflexivity. }
      eauto.
    + rewrite (classify_other st n Ho Hi). eauto.
Qed.

Lemma collect_label_keeps (st : Acc) (n : Node) (anc : list Node) :
  inputs (collect_label st n anc) = inputs st
  /\ outputs (collect_label st n anc) = outputs st.
Proof.
  unfold collect_label.
  destruct (negb (in_set (tag n) _LABEL_TAGS)); [auto|].
  destruct (_get_parent_output_tag_name anc (outputs st)); [|auto].
  destruct (or_else (attr "alias" n) (attr "value" n)) as [[|c0 s0]|]; auto.
Qed.

Lemma visit_total (st : Acc) (x : Node * list Node) :
  exists st1, classify st (fst x) = Ok st1
              /\ visit st x = Ok (collect_label st1 (fst x) (snd x)).
Proof.
  destruct (classify_total st (fst x)) as (st1 & H & _).
  exists st1. unfold visit. rewrite H. auto.
Qed.

Lemma visit_all_total :
  forall (nodes : list (Node * list Node)) (st : Acc),
    exists st', visit_all st nodes = Ok st'.
Proof.
  induction nodes as [|x nodes IH]; intros st; simpl.
  - eauto.
  - destruct (visit_total st x) as (st1 & _ & ->). simpl. apply IH.
Qed.

Lemma visit_all_app :
  forall (l1 l2 : list (Node * list Node)) (st st' : Acc),
    visit_all st (l1 ++ l2) = Ok st' ->
    exists st1, visit_all st l1 = Ok st1 /\ visit_all st1 l2 = Ok st'.
Proof.
  induction l1 as [|x l1 IH]; intros l2 st st' H; simpl in *.
  - eauto.
  - apply bind_inv in H. destruct H as (sx & Hx & H).
    rewrite Hx. simpl. apply IH. assumption.
Qed.

Lemma parse_tree_total (t : Node) :
  exists st,
    visit_all empty_acc (iter t) = Ok st
    /\ parse_tree t
       = Ok (fst (complete (outputs st) (inputs st) (labels st)),
             (log st ++ snd (complete (outputs st) (inputs st) (labels st)))%list).
Proof.
  destruct (visit_all_total (iter t) empty_acc) as (st & H).
  exists st. unfold parse_tree. rewrite H. auto.
Qed.

(** *** What the first pass records *)

Lemma last_named_Some (p : Node -> bool) (k : string) :
  forall (nodes : list (Node * list Node)) (n : Node),
    last_named p k nodes = Some n ->
    p n = true /\ attr "name" n = Some k /\ exists anc, In (n, anc) nodes.
Proof.
  induction nodes as [|[x anc] nodes IH]; intros n H; simpl in H; [discriminate|].
  destruct (last_named p k nodes) as [m|] eqn:E.
  - inversion H. subst m. destruct (IH n eq_refl) as (Hp & Hn & anc' & Hin).
    splits; auto. exists anc'. right. assumption.
  - destruct (p x) eqn:Hp; simpl in H; [|discriminate].
    destruct (attr "name" x) as [name|] eqn:Hn; [|discriminate].
    destruct (String.eqb_spec name k) as [->|]; [|discriminate].
    inversion H. subst x. splits; auto. exists anc. left. reflexivity.
Qed.

Lemma last_named_None (p : Node -> bool) (k : string) :
  forall (nodes : list (Node * list Node)),
    last_named p k nodes = None <->
    (forall x, In x nodes -> attr "name" (fst x) = Some k -> p (fst x) = false).
Proof.
  induction nodes as [|[x anc] nodes IH]; simpl.
  - split; [intros _ y []|reflexivity].
  - destruct (last_named p k nodes) as [m|] eqn:E.
    + split; [discriminate|]. intros H.
      destruct (last_named_Some p k nodes m E) as (Hp & Hn & anc' & Hin).
      pose proof (H (m, anc') (or_intror Hin) Hn) as Hf. simpl in Hf. congruence.
    + destruct IH as [IH _]. specialize (IH eq_refl).
      destruct (p x) eqn:Hp; simpl.
      * destruct (attr "name" x) as [name|] eqn:Hn.
        -- destruct (String.eqb_spec name k) as [->|Hne].
           ++ split; [discriminate|]. intros H.
              specialize (H (x, anc) (or_introl eq_refl) Hn). simpl in H. congruence.
           ++ split; [|reflexivity]. intros _ y [<-|Hy] Hy'; simpl in *.
              ** congruence.
              ** apply IH; assumption.
        -- split; [|reflexivity]. intros _ y [<-|Hy] Hy'; simpl in *.
           ++ congruence.
           ++ apply IH; assumption.
      * split; [|reflexivity]. intros _ y [<-|Hy] Hy'; simpl in *.
        -- assumption.
        -- apply IH; assumption.
Qed.

(** After the first pass [outputs[k]] comes from the last node named
    [k] that is classified as an output tag. *)
Lemma outputs_after :
  forall (nodes : list (Node * list Node)) (st st' : Acc),
    visit_all st nodes = Ok st' ->
    forall k,
      match last_named _is_output_tag k nodes with
      | None => Py.get k (outputs st') = Py.get k (outputs st)
      | Some n =>
          exists toName cond,
            attr "toName" n = Some toName
            /\ Py.get k (outputs st')
               = Some (mkOutput (tag n) (split_on "," toName) cond)
      end.
Proof.
  induction nodes as [|[x anc] nodes IH]; intros st st' H k; simpl in H.
  - inversion H. reflexivity.
  - apply bind_inv in H. destruct H as (sx & Hx & H).
    destruct (visit_total st (x, anc)) as (s1 & Hc & Hv). simpl in Hc, Hv.
    rewrite Hv in Hx. inversion Hx. subst sx. clear Hx Hv.
    specialize (IH _ _ H k). simpl.
    destruct (last_named _is_output_tag k nodes) as [m|]; [exact IH|].
    rewrite IH. destruct (collect_label_keeps s1 x anc) as [_ ->].
    destruct (_is_output_tag x) eqn:Ho; simpl.
    + destruct (classify_output st x Ho) as (c & s & toName & cond & Hn & Ht & _ & Hcl).
      rewrite Hcl in Hc. inversion Hc. subst s1. simpl. rewrite Hn.
      destruct (String.eqb_spec (String c s) k) as [<-|Hne].
      * exists toName, cond. split; [assumption|apply get_set_same].
      * apply get_set_other. assumption.
    + destruct (_is_input_tag x) eqn:Hi.
      * destruct (classify_input st x) as (c & s & v & _ & _ & Hcl).
        { unfold input_only. rewrite Ho, Hi. reflexivity. }
        rewrite Hcl in Hc. inversion Hc. reflexivity.
      * rewrite (classify_other st x Ho Hi) in Hc. inversion Hc. reflexivity.
Qed.

(** After the first pass [inputs[k]] comes from the last node named [k]
    that reaches the [elif] branch. *)
Lemma inputs_after :
  forall (nodes : list (Node * list Node)) (st st' : Acc),
    visit_all st nodes = Ok st' ->
    forall k,
      match last_named input_only k nodes with
      | None => Py.get k (inputs st') = Py.get k (inputs st)
      | Some n =>
          exists value,
            attr "value" n = Some value
            /\ Py.get k (inputs st') = Some (mkInput (tag n) (lstrip "$" value))
      end.
Proof.
  induction nodes as [|[x anc] nodes IH]; intros st st' H k; simpl in H.
  - inversion H. reflexivity.
  - apply bind_inv in H. destruct H as (sx & Hx & H).
    destruct (visit_total st (x, anc)) as (s1 & Hc & Hv). simpl in Hc, Hv.
    rewrite Hv in Hx. inversion Hx. subst sx. clear Hx Hv.
    specialize (IH _ _ H k). simpl.
    destruct (last_named input_only k nodes) as [m|]; [exact IH|].
    rewrite IH. destruct (collect_label_keeps s1 x anc) as [-> _].
    destruct (input_only x) eqn:Hio; simpl.
    + destruct (classify_input st x Hio) as (c & s & v & Hn & Hval & Hcl).
      rewrite Hcl in Hc. inversion Hc. subst s1. simpl. rewrite Hn.
      destruct (String.eqb_spec (String c s) k) as [<-|Hne].
      * exists v. split; [assumption|apply get_set_same].
      * apply get_set_other. assumption.
    + unfold input_only in Hio.
      destruct (_is_output_tag x) eqn:Ho; simpl in Hio.
      * destruct (classify_output st x Ho) as (c & s & t & cond & _ & _ & _ & Hcl).
        rewrite Hcl in Hc. inversion Hc. reflexivity.
      * rewrite (classify_other st x Ho Hio) in Hc. inversion Hc. reflexivity.
Qed.

(** *** The second pass *)

Lemma resolve_inputs_found (T : string) (names : list string) (ins : dict InputInfo) :
  fst (resolve_inputs T names ins) = found_inputs names ins.
Proof.
  induction names as [|name names IH]; simpl; [reflexivity|].
  destruct (Py.get name ins); simpl; rewrite IH; reflexivity.
Qed.

Lemma resolve_inputs_diag (T : string) (names : list string) (ins : dict InputInfo) :
  forall d, In d (snd (resolve_inputs T names ins)) <->
            exists name, In name names /\ Py.get name ins = None
                         /\ d = MissingInput name T.
Proof.
  induction names as [|name names IH]; intros d; simpl.
  - split; [intros []|intros (n & [] & _)].
  - destruct (Py.get name ins) eqn:E; simpl; rewrite ?IH.
    + split.
      * intros (n & Hin & Hg & ->). exists n. auto.
      * intros (n & [<-|Hin] & Hg & ->); [congruence|]. exists n. auto.
    + split.
      * intros [<-|(n & Hin & Hg & ->)]; [exists name; auto|exists n; auto].
      * intros (n & [<-|Hin] & Hg & ->); [left; reflexivity|].
        right. exists n. auto.
Qed.

Lemma complete_In (ins : dict InputInfo) (lbls : dict (dict (dict string))) :
  forall (items : list (string * OutputInfo)) (T : string) (info : TagInfo),
    In (T, info) (fst (complete items ins lbls)) ->
    exists oi,
      In (T, oi) items
      /\ info = mkTagInfo (type_ oi) (to_name oi) (conditionals oi)
                          (found_inputs (to_name oi) ins)
                          (Py.keys (labels_of T lbls)) (labels_of T lbls).
Proof.
  induction items as [|[k oi] items IH]; intros T info H; simpl in H; [contradiction|].
  destruct H as [H|H].
  - inversion H. subst. exists oi. split; [left; reflexivity|].
    rewrite resolve_inputs_found. reflexivity.
  - destruct (IH T info H) as (oi' & Hin & ->). exists oi'. split; [right|]; auto.
Qed.

Lemma complete_get (ins : dict InputInfo) (lbls : dict (dict (dict string))) :
  forall (items : list (string * OutputInfo)) (k : string),
    Py.get k (fst (complete items ins lbls))
    = match Py.get k items with
      | None => None
      | Some oi =>
          Some (mkTagInfo (type_ oi) (to_name oi) (conditionals oi)
                          (found_inputs (to_name oi) ins)
                          (Py.keys (labels_of k lbls)) (labels_of k lbls))
      end.
Proof.
  induction items as [|[k' oi] items IH]; intros k; simpl; [reflexivity|].
  destruct (String.eqb_spec k k') as [->|Hne].
  - rewrite resolve_inputs_found. reflexivity.
  - apply IH.
Qed.

Lemma complete_diag (ins : dict InputInfo) (lbls : dict (dict (dict string))) :
  forall (items : list (string * OutputInfo)) (T : string) (oi : OutputInfo)
         (name : string),
    In (T, oi) items -> In name (to_name oi) -> Py.get name ins = None ->
    In (MissingInput name T) (snd (complete items ins lbls)).
Proof.
  induction items as [|[k oi'] items IH]; intros T oi name H Hn Hg; simpl in *;
    [contradiction|].
  apply in_or_app. destruct H as [H|H].
  - inversion H. subst. left. apply resolve_inputs_diag. exists name. auto.
  - right. eapply IH; eassumption.
Qed.

(** *** Ownership of a label *)

Lemma owner_is_nearest (outs : dict OutputInfo) :
  forall (near : list Node) (a : Node) (far : list Node) (owner : string),
    attr "name" a = Some owner -> Py.mem owner outs = true ->
    (forall b m, In b near -> attr "name" b = Some m -> Py.mem m outs = false) ->
    _get_parent_output_tag_name (near ++ a :: far) outs = Some owner.
Proof.
  induction near as [|b near IH]; intros a far owner Ha Hm Hnear; simpl.
  - rewrite Ha, Hm. reflexivity.
  - destruct (attr "name" b) as [m|] eqn:Hb.
    + rewrite (Hnear b m (or_introl eq_refl) Hb).
      apply IH; auto. intros b' m' Hin. apply Hnear. right. assumption.
    + apply IH; auto. intros b' m' Hin. apply Hnear. right. assumption.
Qed.

Lemma owner_found (outs : dict OutputInfo) :
  forall (anc : list Node) (owner : string),
    _get_parent_output_tag_name anc outs = Some owner ->
    exists near a far,
      anc = (near ++ a :: far)%list
      /\ attr "name" a = Some owner /\ Py.mem owner outs = true
      /\ (forall b m, In b near -> attr "name" b = Some m -> Py.mem m outs = false).
Proof.
  induction anc as [|p up IH]; intros owner H; simpl in H; [discriminate|].
  destruct (attr "name" p) as [m|] eqn:Hp.
  - destruct (Py.mem m outs) eqn:Hm.
    + inversion H. subst m. exists [], p, up. splits; auto.
      intros b m' [].
    + destruct (IH owner H) as (near & a & far & -> & Ha & Ho & Hnear).
      exists (p :: near), a, far. splits; auto.
      intros b m' [<-|Hin] Hb; [congruence|]. eapply Hnear; eassumption.
  - destruct (IH owner H) as (near & a & far & -> & Ha & Ho & Hnear).
    exists (p :: near), a, far. splits; auto.
    intros b m' [<-|Hin] Hb; [congruence|]. eapply Hnear; eassumption.
Qed.

Lemma owner_missing (outs : dict OutputInfo) :
  forall (anc : list Node),
    (forall a m, In a anc -> attr "name" a = Some m -> Py.mem m outs = false) ->
    _get_parent_output_tag_name anc outs = None.
Proof.
  induction anc as [|p up IH]; intros H; simpl; [reflexivity|].
  destruct (attr "name" p) as [m|] eqn:Hp.
  - rewrite (H p m (or_introl eq_refl) Hp). apply IH.
    intros a m' Hin. apply H. right. assumption.
  - apply IH. intros a m' Hin. apply H. right. assumption.
Qed.

(** The model of [getparent()]: in the traversal every element other
    than the root comes with its parent first in the chain, and the
    parent comes with the rest of the chain. *)
Lemma iter_from_chain :
  forall (n : Node) (a0 : list Node) (x : Node) (anc : list Node),
    In (x, anc) (iter_from a0 n) ->
    (x = n /\ anc = a0)
    \/ exists p up, anc = p :: up /\ In x (children p)
                    /\ In (p, up) (iter_from a0 n).
Proof.
  induction n as [t a cs IH] using Node_nested_ind.
  intros a0 x anc H. simpl in H. destruct H as [H|H].
  - left. inversion H. auto.
  - right. apply in_flat_map in H. destruct H as (c & Hc & Hin).
    rewrite Forall_forall in IH.
    destruct (IH c Hc _ _ _ Hin) as [[-> ->]|(p & up & -> & Hch & Hp)].
    + exists (Element t a cs), a0. splits; auto. simpl. left. reflexivity.
    + exists p, up. splits; auto. simpl. right.
      apply in_flat_map. exists c. auto.
Qed.

(** *** The labels gathered by the first pass *)

Lemma labels_of_set (T owner : string) (d : dict (dict string))
      (lbls : dict (dict (dict string))) :
  labels_of T (Py.set owner d lbls)
  = if String.eqb T owner then d else labels_of T lbls.
Proof.
  unfold labels_of. destruct (String.eqb_spec T owner) as [->|Hne].
  - rewrite get_set_same. reflexivity.
  - rewrite get_set_other by congruence. reflexivity.
Qed.

Lemma collect_label_event (st : Acc) (n : Node) (anc : list Node) :
  labels (collect_label st n anc)
  = match label_event (outputs st) (n, anc) with
    | Some (owner, (v, a)) =>
        Py.set owner (Py.set v a (labels_of owner (labels st))) (labels st)
    | None => labels st
    end.
Proof.
  unfold collect_label, label_event. cbn [fst snd].
  destruct (in_set (tag n) _LABEL_TAGS); cbn [negb]; [|reflexivity].
  destruct (_get_parent_output_tag_name anc (outputs st)); [|reflexivity].
  destruct (or_else (attr "alias" n) (attr "value" n)) as [[|c0 s0]|]; reflexivity.
Qed.

Lemma labels_after :
  forall (nodes : list (Node * list Node)) (st st' : Acc),
    visit_all st nodes = Ok st' ->
    forall T,
      labels_of T (labels st')
      = upsert_all (events_of T (label_events st nodes)) (labels_of T (labels st)).
Proof.
  induction nodes as [|[x anc] nodes IH]; intros st st' H T; simpl in H.
  - inversion H. reflexivity.
  - apply bind_inv in H. destruct H as (sx & Hx & H).
    destruct (visit_total st (x, anc)) as (s1 & Hc & Hv). simpl in Hc, Hv.
    rewrite Hv in Hx. inversion Hx. subst sx. clear Hx Hv.
    rewrite (IH _ _ H T). simpl. rewrite Hc.
    rewrite collect_label_event.
    destruct (classify_total st x) as (s1' & Hc' & Hl & _).
    rewrite Hc in Hc'. inversion Hc'. subst s1'. rewrite Hl.
    destruct (label_event (outputs s1) (x, anc)) as [[owner [v a]]|]; [|reflexivity].
    unfold events_of. simpl. rewrite labels_of_set.
    rewrite (String.eqb_sym owner T).
    destruct (String.eqb_spec T owner) as [->|Hne]; reflexivity.
Qed.

Lemma keys_upsert_all :
  forall (evs : list (string * dict string)) (d : dict (dict string))
         (seen : list string),
    (forall k, in_set k seen = Py.mem k d) ->
    Py.keys (upsert_all evs d) = (Py.keys d ++ first_seen seen (map fst evs))%list.
Proof.
  induction evs as [|[v a] evs IH]; intros d seen Hs; simpl.
  - rewrite app_nil_r. reflexivity.
  - rewrite Hs. destruct (Py.mem v d) eqn:Hm.
    + rewrite (IH (Py.set v a d) seen).
      * rewrite keys_set_present by assumption. reflexivity.
      * intros k. rewrite mem_set, Hs.
        destruct (String.eqb_spec k v) as [->|]; [rewrite Hm|]; reflexivity.
    + rewrite (IH (Py.set v a d) (v :: seen)).
      * rewrite keys_set_absent by assumption. rewrite <- app_assoc. reflexivity.
      * intros k. rewrite mem_set. simpl. rewrite Hs. reflexivity.
Qed.

Lemma get_upsert_all :
  forall (evs : list (string * dict string)) (d : dict (dict string)) (v : string),
    Py.get v (upsert_all evs d)
    = match last_attrs v evs with
      | Some a => Some a
      | None => Py.get v d
      end.
Proof.
  induction evs as [|[v' a] evs IH]; intros d v; simpl; [reflexivity|].
  rewrite IH. destruct (last_attrs v evs); [reflexivity|].
  destruct (String.eqb_spec v v') as [->|Hne].
  - apply get_set_same.
  - apply get_set_other. congruence.
Qed.

Lemma found_inputs_skip (k : string) (ins : dict InputInfo) :
  Py.get k ins = None ->
  forall names,
    found_inputs names ins
    = found_inputs (filter (fun name => negb (String.eqb name k)) names) ins.
Proof.
  intros Hk. induction names as [|name names IH]; simpl; [reflexivity|].
  destruct (String.eqb_spec name k) as [->|Hne]; simpl.
  - rewrite Hk. simpl. assumption.
  - rewrite IH. reflexivity.
Qed.

(** *** The claims on [parse_config] *)

(** C2. When the traversal reaches a [Label] or [Choice] node, with
    [ancestors] its parent chain in the tree, its owner is looked up
    against the output map as it stands at that moment, after the node
    itself was classified: the owner is the name of the nearest ancestor
    whose [name] is a key of that map, whatever the ancestors in between
    are, the root included. With such an
    ancestor the node's label goes to that owner (when [alias] or
    [value] gives a non-empty value); without one the label dictionary
    is left as it was. *)
Theorem label_owner_is_nearest_recorded_ancestor :
  forall (t : Node) (before after : list (Node * list Node))
         (n : Node) (ancestors : list Node),
    iter t = (before ++ (n, ancestors) :: after)%list ->
    in_set (tag n) _LABEL_TAGS = true ->
    exists st st1 st2,
      visit_all empty_acc before = Ok st
      /\ classify st n = Ok st1
      /\ visit st (n, ancestors) = Ok st2
      /\ ((n = t /\ ancestors = [])
          \/ exists parent up, ancestors = parent :: up /\ In n (children parent)
                               /\ In (parent, up) (iter t))
      /\ ((forall a m, In a ancestors -> attr "name" a = Some m ->
                       Py.mem m (outputs st1) = false) ->
          _get_parent_output_tag_name ancestors (outputs st1) = None
          /\ labels st2 = labels st)
      /\ (forall near a far owner,
            ancestors = (near ++ a :: far)%list ->
            attr "name" a = Some owner ->
            Py.mem owner (outputs st1) = true ->
            (forall b m, In b near -> attr "name" b = Some m ->
                         Py.mem m (outputs st1) = false) ->
            _get_parent_output_tag_name ancestors (outputs st1) = Some owner
            /\ labels st2
               = match or_else (attr "alias" n) (attr "value" n) with
                 | Some (String c s) =>
                     Py.set owner
                       (Py.set (String c s) (Py.of_items (attrib n))
                               (labels_of owner (labels st)))
                       (labels st)
                 | _ => labels st
                 end).
Proof.
  intros t before after n ancestors Hiter Hlab.
  assert (Hchain : (n = t /\ ancestors = [])
                   \/ exists parent up, ancestors = parent :: up
                                        /\ In n (children parent)
                                        /\ In (parent, up) (iter t)).
  { apply iter_from_chain. fold (iter t). rewrite Hiter.
    apply in_or_app. right. left. reflexivity. }
  destruct (visit_all_total before empty_acc) as (st & Hst).
  destruct (classify_total st n) as (st1 & Hc & Hl & _).
  exists st, st1, (collect_label st1 n ancestors).
  assert (Hev : forall o,
            _get_parent_output_tag_name ancestors (outputs st1) = o ->
            labels (collect_label st1 n ancestors)
            = match o with
              | None => labels st
              | Some owner =>
                  match or_else (attr "alias" n) (attr "value" n) with
                  | Some (String c s) =>
                      Py.set owner
                        (Py.set (String c s) (Py.of_items (attrib n))
                                (labels_of owner (labels st)))
                        (labels st)
                  | _ => labels st
                  end
              end).
  { intros o Ho. rewrite collect_label_event. unfold label_event. cbn [fst snd].
    rewrite Hlab, Ho, Hl. destruct o as [owner|]; [|reflexivity].
    destruct (or_else (attr "alias" n) (attr "value" n)) as [[|c0 s0]|]; reflexivity. }
  splits; auto.
  - unfold visit. cbn [fst snd]. rewrite Hc. reflexivity.
  - intros Hnone. pose proof (owner_missing _ _ Hnone) as Ho.
    split; [assumption|]. apply (Hev None Ho).
  - intros near a far owner -> Ha Hm Hnear.
    pose proof (owner_is_nearest (outputs st1) near a far owner Ha Hm Hnear) as Ho.
    split; [assumption|]. apply (Hev (Some owner) Ho).
Qed.

(** C3. For every entry of the returned Schema, [labels] lists the
    values of the labels owned by that output tag in the order in which
    the traversal first met them, a repeated value keeping its first
    position, and [labels_attrs] maps each value to the attributes of
    its last occurrence. *)
Theorem labels_first_seen_order_last_attrs :
  forall (t : Node),
    exists schema diags,
      parse_tree t = Ok (schema, diags)
      /\ forall T info,
          In (T, info) schema ->
          ti_labels info
          = first_seen [] (map fst (events_of T (label_events empty_acc (iter t))))
          /\ ti_labels info = Py.keys (ti_labels_attrs info)
          /\ forall v,
              Py.get v (ti_labels_attrs info)
              = last_attrs v (events_of T (label_events empty_acc (iter t))).
Proof.
  intros t. destruct (parse_tree_total t) as (st & Hv & Hp).
  eexists; eexists; split; [exact Hp|].
  intros T info Hin.
  destruct (complete_In _ _ _ _ _ Hin) as (oi & _ & ->). simpl.
  rewrite (labels_after _ _ _ Hv T). simpl.
  splits; auto.
  - rewrite (keys_upsert_all _ [] []); [reflexivity|]. intros k. reflexivity.
  - intros v. rewrite get_upsert_all.
    destruct (last_attrs v _); reflexivity.
Qed.

(** C4, as the code has it. On [None] or the empty string
    [parse_config] returns the empty Schema, whatever the parser would
    do. On a non-empty string it raises exactly when the parser does:
    an [XMLSyntaxError] becomes a [ValueError] (the spec's
    [MalformedConfigError]) with the parser's message, any other
    exception of the parser is not caught by lines 262-265 and leaves
    [parse_config] unchanged, and a tree that the parser returns is
    always turned into a Schema. *)
Theorem parse_config_raises_what_the_parser_raises :
  forall (fromstring : string -> Parsed) (config_string : option string),
    (config_string = None \/ config_string = Some "" ->
     parse_config fromstring config_string = Ok ([], []))
    /\ (forall s msg,
          config_string = Some s -> s <> "" ->
          fromstring s = XMLSyntaxError msg ->
          parse_config fromstring config_string = Raise (ValueError msg))
    /\ (forall s e,
          config_string = Some s -> s <> "" ->
          fromstring s = Uncaught e ->
          parse_config fromstring config_string = Raise e)
    /\ (forall s xml_tree,
          config_string = Some s -> s <> "" ->
          fromstring s = Root xml_tree ->
          exists schema diags,
            parse_config fromstring config_string = Ok (schema, diags)
            /\ parse_tree xml_tree = Ok (schema, diags))
    /\ (forall e,
          parse_config fromstring config_string = Raise e ->
          exists s,
            config_string = Some s /\ s <> ""
            /\ ((exists msg, fromstring s = XMLSyntaxError msg
                             /\ e = ValueError msg)
                \/ fromstring s = Uncaught e)).
Proof.
  intros fromstring config_string. splits.
  - intros [->| ->]; reflexivity.
  - intros s msg -> Hne Hf. unfold parse_config.
    destruct s as [|c s]; [congruence|]. simpl. rewrite Hf. reflexivity.
  - intros s e -> Hne Hf. unfold parse_config.
    destruct s as [|c s]; [congruence|]. simpl. rewrite Hf. reflexivity.
  - intros s xml_tree -> Hne Hf. unfold parse_config.
    destruct s as [|c s]; [congruence|]. simpl. rewrite Hf.
    destruct (parse_tree_total xml_tree) as (st & _ & Hp).
    eexists; eexists; split; exact Hp.
  - intros e H. unfold parse_config in H.
    destruct config_string as [[|c s]|]; simpl in H; try discriminate.
    exists (String c s). split; [reflexivity|]. split; [discriminate|].
    destruct (fromstring (String c s)) as [tree|msg|e'] eqn:Hf.
    + destruct (parse_tree_total tree) as (st & _ & Hp).
      rewrite Hp in H. discriminate.
    + inversion H. left. exists msg. split; reflexivity.
    + inversion H. right. reflexivity.
Qed.

(** C8, as the code has it. A node is classified as an output tag
    exactly when its [name] and its [toName] attributes are present and
    not empty and its tag kind is not [Filter]. The entry of the
    returned Schema under a key [k] comes from the last node named [k]
    that is so classified: its [type] is the kind of that node, never
    [Filter], and its [to_name] is the [toName] value split at the
    commas; without such a node [k] is not a key. *)
Theorem output_tags_have_nonempty_name_and_toName :
  forall (t : Node),
    (forall n,
        _is_output_tag n = true <->
        (exists name, attr "name" n = Some name /\ name <> "")
        /\ (exists toName, attr "toName" n = Some toName /\ toName <> "")
        /\ ~ In (tag n) _NOT_CONTROL_TAGS)
    /\ exists schema diags,
        parse_tree t = Ok (schema, diags)
        /\ forall k,
            match last_named _is_output_tag k (iter t) with
            | None => Py.get k schema = None
            | Some n =>
                exists info toName,
                  Py.get k schema = Some info
                  /\ attr "toName" n = Some toName
                  /\ ti_type info = tag n
                  /\ ti_to_name info = split_on "," toName
                  /\ ~ In (ti_type info) _NOT_CONTROL_TAGS
            end.
Proof.
  intros t. split.
  - intros n. unfold _is_output_tag. rewrite !andb_true_iff, negb_true_iff.
    rewrite <- not_true_iff_false, in_set_In.
    assert (Ht : forall o, Py.truthy o = true <-> exists v, o = Some v /\ v <> "").
    { intros o. split.
      - intros H. destruct (truthy_inv o H) as (c & s & ->).
        eexists; split; [reflexivity|discriminate].
      - intros (v & -> & Hv). destruct v; [congruence|reflexivity]. }
    rewrite !Ht. tauto.
  - destruct (parse_tree_total t) as (st & Hv & Hp).
    eexists; eexists; split; [exact Hp|].
    intros k. cbn [fst]. rewrite complete_get.
    pose proof (outputs_after _ _ _ Hv k) as Ho.
    destruct (last_named _is_output_tag k (iter t)) as [n|] eqn:Hl.
    + destruct Ho as (toName & cond & Ht & ->).
      eexists; exists toName. splits; try reflexivity; auto.
      cbn [ti_type type_]. destruct (last_named_Some _ _ _ _ Hl) as (Hout & _).
      unfold _is_output_tag in Hout. apply andb_true_iff in Hout.
      destruct Hout as [_ Hnf]. apply negb_true_iff in Hnf.
      rewrite <- in_set_In. congruence.
    + rewrite Ho. reflexivity.
Qed.

(** C9. For every entry [T] of the returned Schema, [inputs] holds the
    descriptor of each [to_name] entry that is a key of the input map
    of the first pass, one per entry and in the order of [to_name]; an
    entry that is not a key is left out and reported in the log, and
    parsing returns all the same. *)
Theorem inputs_follow_to_name_and_skip_unknown :
  forall (t : Node),
    exists st schema diags,
      visit_all empty_acc (iter t) = Ok st
      /\ parse_tree t = Ok (schema, diags)
      /\ forall T info,
          In (T, info) schema ->
          ti_inputs info = found_inputs (ti_to_name info) (inputs st)
          /\ forall name,
              In name (ti_to_name info) -> Py.get name (inputs st) = None ->
              In (MissingInput name T) diags.
Proof.
  intros t. destruct (parse_tree_total t) as (st & Hv & Hp).
  exists st. eexists; eexists; splits; [exact Hv|exact Hp|].
  intros T info Hin.
  destruct (complete_In _ _ _ _ _ Hin) as (oi & Hoi & ->). simpl.
  split; [reflexivity|].
  intros name Hn Hg. apply in_or_app. right.
  eapply complete_diag; eassumption.
Qed.

(** C10, as the code has it. A node that passes both tests, with
    non-empty [name], [toName] and [value] and a kind other than
    [Filter], is recorded in the output map only: its visit leaves the
    input map as it was. Hence, when no node of that name reaches the
    [elif] branch of line 289, the name is not a key of the input map,
    it contributes no descriptor to the [inputs] of any entry, and each
    [to_name] that mentions it is reported in the log. *)
Theorem output_classification_takes_precedence :
  forall (t : Node),
    (forall st n,
        _is_output_tag n = true -> _is_input_tag n = true ->
        exists st1 name info,
          attr "name" n = Some name
          /\ classify st n = Ok st1
          /\ inputs st1 = inputs st
          /\ Py.get name (outputs st1) = Some info
          /\ type_ info = tag n)
    /\ exists st schema diags,
        visit_all empty_acc (iter t) = Ok st
        /\ parse_tree t = Ok (schema, diags)
        /\ forall k,
            (forall x, In x (iter t) -> attr "name" (fst x) = Some k ->
                       input_only (fst x) = false) ->
            Py.get k (inputs st) = None
            /\ forall T info,
                In (T, info) schema ->
                ti_inputs info
                = found_inputs
                    (filter (fun name => negb (String.eqb name k)) (ti_to_name info))
                    (inputs st)
                /\ (In k (ti_to_name info) -> In (MissingInput k T) diags).
Proof.
  intros t. split.
  - intros st n Ho _.
    destruct (classify_output st n Ho) as (c & s & toName & cond & Hn & _ & _ & Hc).
    eexists; eexists; eexists. splits; [exact Hn|exact Hc|reflexivity| |].
    + simpl. apply get_set_same.
    + reflexivity.
  - destruct (parse_tree_total t) as (st & Hv & Hp).
    exists st. eexists; eexists; splits; [exact Hv|exact Hp|].
    intros k Hk.
    assert (Hg : Py.get k (inputs st) = None).
    { pose proof (inputs_after _ _ _ Hv k) as Hi.
      apply last_named_None in Hk. rewrite Hk in Hi. exact Hi. }
    split; [assumption|].
    intros T info Hin.
    destruct (complete_In _ _ _ _ _ Hin) as (oi & Hoi & ->). simpl.
    split; [apply found_inputs_skip; assumption|].
    intros Hkin. apply in_or_app. right.
    eapply complete_diag; eassumption.
Qed.

(** *** Concrete configurations *)

(** The [Choice] of [cfg_ownership] is owned by [c1], the root, across
    the [View] in between. *)
Lemma ownership_resolution_witness :
  parse_tree cfg_ownership
  = Ok ([("c1", mkTagInfo "Choices" ["t1"] None [] ["x"] [("x", [("value", "x")])])],
        [MissingInput "t1" "c1"])
  /\ exists st1 st2,
      classify (mkAcc [] [("c1", mkOutput "Choices" ["t1"] None)] [] []) cfg_choice
      = Ok st1
      /\ visit (mkAcc [] [("c1", mkOutput "Choices" ["t1"] None)] [] [])
               (cfg_choice, [cfg_view; cfg_ownership]) = Ok st2
      /\ _get_parent_output_tag_name [cfg_view; cfg_ownership] (outputs st1) = Some "c1"
      /\ labels st2 = [("c1", [("x", [("value", "x")])])].
Proof.
  split; [reflexivity|].
  destruct (label_owner_is_nearest_recorded_ancestor cfg_ownership
              [(cfg_ownership, []); (cfg_view, [cfg_ownership])] []
              cfg_choice [cfg_view; cfg_ownership] eq_refl eq_refl)
    as (st & st1 & st2 & Hst & Hc & Hv & _ & _ & Hsome).
  vm_compute in Hst. injection Hst as <-.
  exists st1, st2. split; [exact Hc|]. split; [exact Hv|].
  vm_compute in Hc. injection Hc as <-.
  destruct (Hsome [cfg_view] cfg_ownership [] "c1" eq_refl eq_refl eq_refl) as [Ho Hl].
  - intros b m [<-|[]] Hb. discriminate Hb.
  - split; [exact Ho|]. rewrite Hl. reflexivity.
Defined.

(** The labels [L1], [L2], [L1] of [cfg_labels]. *)
Lemma label_order_witness :
  exists schema diags info,
    parse_tree cfg_labels = Ok (schema, diags)
    /\ In ("T", info) schema
    /\ ti_labels info = ["L1"; "L2"]
    /\ Py.get "L1" (ti_labels_attrs info)
       = Some [("value", "L1"); ("background", "blue")].
Proof.
  destruct (labels_first_seen_order_last_attrs cfg_labels)
    as (schema & diags & Hp & Hall).
  exists schema, diags.
  vm_compute in Hp. injection Hp as <- <-.
  eexists. split; [reflexivity|]. split; [left; reflexivity|].
  destruct (Hall "T" _ (or_introl eq_refl)) as (Hl & _ & Ha).
  split; [rewrite Hl; reflexivity | rewrite Ha; reflexivity].
Defined.

(** No string, the empty string, a string the parser rejects with a
    syntax error, a string it refuses for its encoding declaration, and
    a string it parses. *)
Lemma parse_config_errors_witness :
  parse_config toy_fromstring None = Ok ([], [])
  /\ parse_config toy_fromstring (Some "") = Ok ([], [])
  /\ (exists msg,
        toy_fromstring "<View>" = XMLSyntaxError msg
        /\ parse_config toy_fromstring (Some "<View>") = Raise (ValueError msg))
  /\ (exists e,
        toy_fromstring doc_declared = Uncaught e
        /\ parse_config toy_fromstring (Some doc_declared) = Raise e)
  /\ parse_config toy_fromstring (Some doc_plain) = Ok ([], []).
Proof.
  destruct (parse_config_raises_what_the_parser_raises toy_fromstring None)
    as (Hnone & _).
  destruct (parse_config_raises_what_the_parser_raises toy_fromstring (Some ""))
    as (Hempty & _).
  destruct (parse_config_raises_what_the_parser_raises
              toy_fromstring (Some "<View>"))
    as (_ & Hbad & _).
  destruct (parse_config_raises_what_the_parser_raises
              toy_fromstring (Some doc_declared))
    as (_ & _ & Hother & _).
  destruct (parse_config_raises_what_the_parser_raises
              toy_fromstring (Some doc_plain))
    as (_ & _ & _ & Htree & _).
  split; [apply Hnone; left; reflexivity|].
  split; [apply Hempty; right; reflexivity|].
  split.
  { eexists. split; [reflexivity|].
    apply (Hbad "<View>"); [reflexivity | discriminate | reflexivity]. }
  split.
  { eexists. split; [reflexivity|].
    apply (Hother doc_declared);
      [reflexivity | unfold doc_declared; discriminate | reflexivity]. }
  assert (Hne : doc_plain <> "") by (unfold doc_plain; discriminate).
  destruct (Htree doc_plain (Element "View" [] []) eq_refl Hne eq_refl)
    as (schema & diags & Hp & Ht).
  vm_compute in Ht. injection Ht as <- <-. exact Hp.
Defined.

(** [doc_declared] is well-formed markup: without its declaration it is
    [doc_plain], which parses to an [<View/>] and gives the empty
    Schema. Yet [parse_config] raises on it, and not because of a
    syntax error: the [ValueError] is the parser's own. *)
Lemma encoding_declaration_raises_on_well_formed_markup :
  doc_declared = String.append "<?xml version='1.0' encoding='UTF-8'?>" doc_plain
  /\ parse_config toy_fromstring (Some doc_plain) = Ok ([], [])
  /\ ~ (exists msg, toy_fromstring doc_declared = XMLSyntaxError msg)
  /\ exists msg,
      toy_fromstring doc_declared = Uncaught (ValueError msg)
      /\ parse_config toy_fromstring (Some doc_declared) = Raise (ValueError msg).
Proof.
  splits; try reflexivity.
  - intros (msg & H). discriminate H.
  - eexists. split; reflexivity.
Qed.

(** [<Choices name="" toName="t"/>] has both attributes and is not a
    [Filter], yet it is not classified as an output tag and the Schema
    is empty. *)
Lemma empty_name_is_not_an_output_tag :
  attr "name" cfg_empty_name = Some ""
  /\ attr "toName" cfg_empty_name = Some "t"
  /\ ~ In (tag cfg_empty_name) _NOT_CONTROL_TAGS
  /\ _is_output_tag cfg_empty_name = false
  /\ parse_tree cfg_empty_name = Ok ([], [])
  /\ parse_config toy_fromstring (Some "<Choices name='' toName='t'/>") = Ok ([], []).
Proof.
  splits; try reflexivity.
  intros [H|[]]. discriminate H.
Qed.

(** The [Filter] of [cfg_filter] leaves no entry; the [Choices] does. *)
Lemma output_tags_witness :
  _is_output_tag (Element "Filter" [("name", "f"); ("toName", "c")] []) = false
  /\ exists schema diags info,
      parse_tree cfg_filter = Ok (schema, diags)
      /\ Py.get "f" schema = None
      /\ Py.get "c" schema = Some info
      /\ ti_type info = "Choices"
      /\ ti_to_name info = ["t"; "u"].
Proof.
  destruct (output_tags_have_nonempty_name_and_toName cfg_filter)
    as (Hiff & schema & diags & Hp & Hall).
  split.
  - apply not_true_iff_false. intros H. apply Hiff in H.
    destruct H as (_ & _ & Hnf). apply Hnf. left. reflexivity.
  - pose proof (Hall "f") as Hf. pose proof (Hall "c") as Hc.
    vm_compute in Hp. injection Hp as <- <-.
    eexists; eexists; eexists. split; [reflexivity|].
    split; [exact Hf|].
    destruct Hc as (info & toName & Hg & Ht & Hty & Hto & _).
    vm_compute in Ht. injection Ht as <-.
    vm_compute in Hg. injection Hg as <-.
    splits; reflexivity.
Defined.

(** [cfg_labels]: [T] points to [A] and [B], only [A] is an input tag. *)
Lemma round_trip_witness :
  exists schema diags info,
    parse_tree cfg_labels = Ok (schema, diags)
    /\ In ("T", info) schema
    /\ ti_to_name info = ["A"; "B"]
    /\ ti_inputs info = [mkInput "Text" "text"]
    /\ In (MissingInput "B" "T") diags.
Proof.
  destruct (inputs_follow_to_name_and_skip_unknown cfg_labels)
    as (st & schema & diags & Hv & Hp & Hall).
  exists schema, diags.
  vm_compute in Hv. injection Hv as <-.
  vm_compute in Hp. injection Hp as <- <-.
  eexists. split; [reflexivity|]. split; [left; reflexivity|].
  destruct (Hall "T" _ (or_introl eq_refl)) as (Hi & Hd).
  split; [reflexivity|]. split; [rewrite Hi; reflexivity|].
  apply (Hd "B"); [right; left; reflexivity | reflexivity].
Defined.

(** Two ways the name of a node with [name], [toName] and [value]
    resolves to an input descriptor. In [cfg_same_name] the node
    [cfg_both] passes both tests and is recorded as an output tag, but a
    [Text] of the same name is an input tag. In [cfg_empty_toName] the
    [toName] of the node is empty, so the node itself is recorded as an
    input tag. *)
Lemma name_of_output_tag_can_resolve :
  (_is_output_tag cfg_both = true /\ _is_input_tag cfg_both = true
   /\ attr "name" cfg_both = Some "x"
   /\ parse_tree cfg_same_name
      = Ok ([("x", mkTagInfo "Choices" ["x"] None [mkInput "Text" "t"] [] []);
             ("c", mkTagInfo "Choices" ["x"] None [mkInput "Text" "t"] [] [])],
            []))
  /\ (attr "name" (Element "Choices" [("name", "n"); ("toName", ""); ("value", "v")] [])
      = Some "n"
      /\ attr "toName" (Element "Choices" [("name", "n"); ("toName", ""); ("value", "v")] [])
         = Some ""
      /\ attr "value" (Element "Choices" [("name", "n"); ("toName", ""); ("value", "v")] [])
         = Some "v"
      /\ parse_tree cfg_empty_toName
         = Ok ([("c", mkTagInfo "Choices" ["n"] None [mkInput "Choices" "v"] [] [])], [])).
Proof.
  splits; reflexivity.
Qed.

(** [cfg_precedence]: [x] passes both tests and is the only node of
    that name. *)
Lemma precedence_witness :
  _is_output_tag cfg_both = true /\ _is_input_tag cfg_both = true
  /\ exists st schema diags info,
      visit_all empty_acc (iter cfg_precedence) = Ok st
      /\ parse_tree cfg_precedence = Ok (schema, diags)
      /\ Py.get "x" (inputs st) = None
      /\ In ("c", info) schema
      /\ ti_to_name info = ["x"; "y"]
      /\ ti_inputs info = []
      /\ In (MissingInput "x" "c") diags.
Proof.
  split; [reflexivity|]. split; [reflexivity|].
  destruct (output_classification_takes_precedence cfg_precedence)
    as (_ & st & schema & diags & Hv & Hp & Hall).
  exists st, schema, diags.
  destruct (Hall "x") as (Hg & Hent).
  { intros x [<-|[<-|[<-|[]]]] Hx; try reflexivity; discriminate Hx. }
  vm_compute in Hv. injection Hv as <-.
  vm_compute in Hp. injection Hp as <- <-.
  eexists. split; [reflexivity|]. split; [reflexivity|]. split; [exact Hg|].
  split; [right; left; reflexivity|].
  destruct (Hent "c" _ (or_intror (or_introl eq_refl))) as (Hi & Hd).
  split; [reflexivity|]. split; [rewrite Hi; reflexivity|].
  apply Hd. left. reflexivity.
Defined.

End ConfigFacts.

(** ** The other helpers *)

Module UtilFacts.

Import Util.

Lemma root_type_loop_cases (f : string) :
  forall char,
    char <> "" ->
    root_type_loop char f = "dict" \/ root_type_loop char f = "list"
    \/ root_type_loop char f = "invalid".
Proof.
  induction f as [|c rest IH]; intros char Hne; simpl.
  - destruct (String.eqb_spec char ""); [congruence|]. auto.
  - destruct (String.eqb_spec char ""); [congruence|].
    destruct (Tagger.is_space c).
    + apply IH. discriminate.
    + destruct (Ascii.eqb c "{"); [auto|].
      destruct (Ascii.eqb c "["); auto.
Qed.

(** X1. [get_json_root_type] answers ["dict"], ["list"] or ["invalid"]
    and nothing else: the [return "empty"] of line 373 is never reached,
    and a file that is empty or holds only whitespace is ["invalid"]. *)
Theorem get_json_root_type_is_never_empty :
  forall (content : string),
    (get_json_root_type content = "dict" \/ get_json_root_type content = "list"
     \/ get_json_root_type content = "invalid")
    /\ get_json_root_type content <> "empty"
    /\ (More.all_space content = true -> get_json_root_type content = "invalid").
Proof.
  intros content.
  assert (H : get_json_root_type content = "dict"
              \/ get_json_root_type content = "list"
              \/ get_json_root_type content = "invalid").
  { apply root_type_loop_cases. discriminate. }
  splits; auto.
  - destruct H as [-> | [-> | ->]]; discriminate.
  - unfold get_json_root_type.
    assert (G : forall f char, char <> "" -> More.all_space f = true ->
                               root_type_loop char f = "invalid").
    { induction f as [|c rest IH]; intros char Hne Hs; simpl in *.
      - destruct (String.eqb_spec char ""); [congruence|reflexivity].
      - destruct (String.eqb_spec char ""); [congruence|].
        apply andb_true_iff in Hs. destruct Hs as [Hc Hr].
        rewrite Hc. apply IH; [discriminate|assumption]. }
    apply G. discriminate.
Qed.

Lemma all_space_witness :
  More.all_space "   " = true /\ get_json_root_type "   " = "invalid"
  /\ get_json_root_type "" = "invalid".
Proof.
  destruct (get_json_root_type_is_never_empty "   ") as (_ & _ & H3).
  destruct (get_json_root_type_is_never_empty "") as (_ & _ & H0).
  split; [reflexivity|]. split; [apply H3; reflexivity | apply H0; reflexivity].
Defined.

(** X2. Leading whitespace is skipped and the first other character
    (of ASCII) decides: ["dict"] for an opening brace, ["list"] for an
    opening bracket, ["invalid"] for anything else, whatever follows. *)
Theorem get_json_root_type_first_character :
  forall (ws : string) (c : ascii) (rest : string),
    More.all_space ws = true ->
    More.is_ascii c = true -> Tagger.is_space c = false ->
    get_json_root_type (String.append ws (String c rest))
    = if Ascii.eqb c "{" then "dict"
      else if Ascii.eqb c "[" then "list"
      else "invalid".
Proof.
  intros ws c rest Hws _ Hc. unfold get_json_root_type.
  assert (G : forall f char, char <> "" -> More.all_space f = true ->
                root_type_loop char (String.append f (String c rest))
                = if Ascii.eqb c "{" then "dict"
                  else if Ascii.eqb c "[" then "list"
                  else "invalid").
  { induction f as [|d f IH]; intros char Hne Hs; simpl in *.
    - destruct (String.eqb_spec char ""); [congruence|].
      rewrite Hc.
      destruct (Ascii.eqb c "{"); [reflexivity|].
      destruct (Ascii.eqb c "["); reflexivity.
    - destruct (String.eqb_spec char ""); [congruence|].
      apply andb_true_iff in Hs. destruct Hs as [Hd Hf].
      rewrite Hd. apply IH; [discriminate|assumption]. }
  apply G; [discriminate|assumption].
Qed.

Lemma first_character_witness :
  get_json_root_type "   [1, 2]" = "list"
  /\ get_json_root_type "  {}" = "dict"
  /\ get_json_root_type " 12" = "invalid".
Proof.
  splits.
  - apply (get_json_root_type_first_character "   " "[" "1, 2]"); reflexivity.
  - apply (get_json_root_type_first_character "  " "{" "}"); reflexivity.
  - apply (get_json_root_type_first_character " " "1" "2"); reflexivity.
Defined.

(** *** [get_polygon_bounding_box] *)

Lemma min_from_spec (l : list Z) :
  forall m,
    In (min_from m l) (m :: l)
    /\ min_from m l <= m
    /\ forall a, In a l -> min_from m l <= a.
Proof.
  induction l as [|y l IH]; intros m; simpl.
  - splits; [auto|lia|intros a []].
  - destruct (IH (if y <? m then y else m)) as (Hin & Hle & Hall).
    destruct (Z.ltb_spec y m) as [Hlt|Hge].
    + splits.
      * destruct Hin as [<-|Hin]; auto.
      * lia.
      * intros a [<-|Ha]; [assumption|auto].
    + splits.
      * destruct Hin as [<-|Hin]; auto.
      * assumption.
      * intros a [<-|Ha]; [lia|auto].
Qed.

Lemma max_from_spec (l : list Z) :
  forall m,
    In (max_from m l) (m :: l)
    /\ m <= max_from m l
    /\ forall a, In a l -> a <= max_from m l.
Proof.
  induction l as [|y l IH]; intros m; simpl.
  - splits; [auto|lia|intros a []].
  - destruct (IH (if y >? m then y else m)) as (Hin & Hle & Hall).
    rewrite Z.gtb_ltb in *.
    destruct (Z.ltb_spec m y) as [Hlt|Hge].
    + splits.
      * destruct Hin as [<-|Hin]; auto.
      * lia.
      * intros a [<-|Ha]; [assumption|auto].
    + splits.
      * destruct Hin as [<-|Hin]; auto.
      * assumption.
      * intros a [<-|Ha]; [lia|auto].
Qed.

(** X3. [get_polygon_bounding_box] fails its assertion when the two
    lists differ in length and raises [ValueError] (from [min]) when
    both are empty. Otherwise it returns [[x1, y1, w, h]] with [w] and
    [h] not negative, every point inside the box, and the box tight:
    [x1], [x1 + w], [y1] and [y1 + h] are coordinates of the input. *)
Theorem bounding_box_encloses_the_points :
  forall (x y : list Z),
    (List.length x <> List.length y ->
     get_polygon_bounding_box x y = Throw AssertionError)
    /\ (x = [] -> y = [] -> get_polygon_bounding_box x y = Throw ValueError)
    /\ (List.length x = List.length y -> x <> [] ->
        exists x1 y1 w h,
          get_polygon_bounding_box x y = Return [x1; y1; w; h]
          /\ 0 <= w /\ 0 <= h
          /\ In x1 x /\ In (x1 + w) x /\ In y1 y /\ In (y1 + h) y
          /\ (forall a, In a x -> x1 <= a <= x1 + w)
          /\ (forall b, In b y -> y1 <= b <= y1 + h)).
Proof.
  intros x y. splits.
  - intros Hne. unfold get_polygon_bounding_box.
    destruct (Nat.eqb_spec (List.length x) (List.length y)); [congruence|reflexivity].
  - intros -> ->. reflexivity.
  - intros Hlen Hx. unfold get_polygon_bounding_box.
    rewrite Hlen, Nat.eqb_refl. simpl.
    destruct x as [|a x]; [congruence|].
    destruct y as [|b y]; [discriminate|]. simpl.
    destruct (min_from_spec x a) as (I1 & L1 & A1).
    destruct (max_from_spec x a) as (I2 & L2 & A2).
    destruct (min_from_spec y b) as (I3 & L3 & A3).
    destruct (max_from_spec y b) as (I4 & L4 & A4).
    eexists; eexists; eexists; eexists. split; [reflexivity|].
    replace (min_from a x + (max_from a x - min_from a x)) with (max_from a x) by lia.
    replace (min_from b y + (max_from b y - min_from b y)) with (max_from b y) by lia.
    splits; auto; try lia.
    + intros c [<-|Hc]; [lia|]. specialize (A1 c Hc). specialize (A2 c Hc). lia.
    + intros c [<-|Hc]; [lia|]. specialize (A3 c Hc). specialize (A4 c Hc). lia.
Qed.

Lemma bounding_box_witness :
  get_polygon_bounding_box [3; 1; 4] [1; 5] = Throw AssertionError
  /\ get_polygon_bounding_box [] [] = Throw ValueError
  /\ exists x1 y1 w h,
      get_polygon_bounding_box [3; 1; 4] [1; 5; 9] = Return [x1; y1; w; h]
      /\ 0 <= w /\ 0 <= h.
Proof.
  destruct (bounding_box_encloses_the_points [3; 1; 4] [1; 5]) as (H1 & _ & _).
  destruct (bounding_box_encloses_the_points [] []) as (_ & H2 & _).
  destruct (bounding_box_encloses_the_points [3; 1; 4] [1; 5; 9]) as (_ & _ & H3).
  split; [apply H1; discriminate|].
  split; [apply H2; reflexivity|].
  destruct (H3 eq_refl) as (x1 & y1 & w & h & Hr & Hw & Hh & _); [discriminate|].
  exists x1, y1, w, h. auto.
Defined.

(** *** [_get_upload_dir] *)

Lemma append_nonempty_r (a b : string) : b <> "" -> String.append a b <> "".
Proof.
  destruct a; simpl; [auto|discriminate].
Qed.

Lemma path_join_upload_inv (a : string) :
  exists c s, path_join a "upload" = String c s.
Proof.
  assert (H : path_join a "upload" <> "").
  { unfold path_join. simpl.
    destruct (String.eqb a "" || ends_with_slash a);
      apply append_nonempty_r; discriminate. }
  destruct (path_join a "upload") as [|c s]; [congruence|eauto].
Qed.

(** X4. When [_get_upload_dir] returns, the directory is a non-empty
    string and it is, in this order of precedence, the [upload_dir]
    argument, the value of [LS_UPLOAD_DIR], or [project_dir/upload] when
    that path exists. It raises [FileNotFoundError] in the one remaining
    case: no argument, no variable, and no project directory with an
    existing [upload] below it. *)
Theorem upload_dir_is_found_or_reported :
  forall (env : option string) (path_exists : string -> bool)
         (project_dir upload_dir : option string),
    (forall d,
        _get_upload_dir env path_exists project_dir upload_dir = Return d ->
        d <> ""
        /\ (upload_dir = Some d
            \/ (Py.truthy upload_dir = false /\ env = Some d)
            \/ (Py.truthy upload_dir = false /\ Py.truthy env = false
                /\ exists p, project_dir = Some p /\ p <> ""
                             /\ d = path_join p "upload"
                             /\ path_exists d = true)))
    /\ (forall e,
          _get_upload_dir env path_exists project_dir upload_dir = Throw e ->
          Py.truthy upload_dir = false /\ Py.truthy env = false
          /\ (Py.truthy project_dir = false
              \/ exists p, project_dir = Some p
                           /\ path_exists (path_join p "upload") = false)).
Proof.
  intros env path_exists project_dir upload_dir.
  unfold _get_upload_dir.
  destruct upload_dir as [[|c s]|].
  2: { split; [|discriminate]. intros d H. inversion H. subst d.
       split; [discriminate|]. left. reflexivity. }
  all: destruct project_dir as [[|pc ps]|];
    destruct env as [[|ec es]|]; simpl;
    (split; [intros d H | intros e H]);
    try discriminate;
    try (inversion H; subst; split; [discriminate|]; right; left; auto; fail);
    try (splits; auto; fail).
  all: try (destruct (path_join_upload_inv (String pc ps)) as (jc & js & Hj);
            rewrite Hj in H;
            destruct (path_exists (String jc js)) eqn:He; simpl in H;
            try discriminate).
  all: try (inversion H; subst d; split; [discriminate|]; right; right;
            split; [reflexivity|]; split; [reflexivity|];
            exists (String pc ps); split; [reflexivity|];
            split; [discriminate|]; split; [symmetry; assumption | assumption]).
  all: try (splits; auto; right; exists (String pc ps); split; auto;
            rewrite Hj; assumption; fail).
Qed.

Lemma upload_dir_witness :
  _get_upload_dir (Some "/env") (fun _ => true) (Some "/proj") (Some "/given")
  = Return "/given"
  /\ (forall d,
         _get_upload_dir None (fun _ => true) (Some "/proj") None = Return d ->
         d = "/proj/upload")
  /\ (exists msg,
         _get_upload_dir None (fun _ => false) (Some "/proj") None
         = Throw (FileNotFoundError msg))
  /\ (exists p, Some "/proj" = Some p
                /\ (fun _ : string => false) (path_join p "upload") = false).
Proof.
  destruct (upload_dir_is_found_or_reported None (fun _ => true) (Some "/proj") None)
    as (Hret & _).
  destruct (upload_dir_is_found_or_reported None (fun _ => false) (Some "/proj") None)
    as (_ & Hthrow).
  splits.
  - reflexivity.
  - intros d H. destruct (Hret d H) as (_ & [E | [(_ & E) | (_ & _ & p & Ep & _ & Ed & _)]]);
      try discriminate.
    inversion Ep. subst p. rewrite Ed. reflexivity.
  - eexists. reflexivity.
  - destruct (Hthrow _ eq_refl) as (_ & _ & [Hp | Hp]); [discriminate Hp | exact Hp].
Defined.

(** *** [prettify_result] *)

Lemma prettify_loop_length :
  forall (v : list (dict Val)) (out : list Val) (t : Val)
         (out' : list Val) (t' : Val),
    prettify_loop v out t = Return (out', t') ->
    List.length out' = (List.length out + List.length v)%nat.
Proof.
  induction v as [|i v IH]; intros out t out' t' H; simpl in H.
  - inversion H. subst. simpl. lia.
  - destruct (Py.get "type" i) as [ty|]; [|discriminate].
    destruct (pretty_item ty (without "type" i)) as [o|e]; [|discriminate].
    rewrite (IH _ _ _ _ H). rewrite length_app. simpl. lia.
Qed.

Lemma prettify_loop_needs_type :
  forall (v : list (dict Val)) (i : dict Val),
    In i v -> Py.get "type" i = None ->
    forall out t, exists e, prettify_loop v out t = Throw e.
Proof.
  induction v as [|i0 v IH]; intros i Hin Hty out t; [contradiction|].
  simpl. destruct Hin as [->|Hin].
  - rewrite Hty. eauto.
  - destruct (Py.get "type" i0) as [ty|]; [|eauto].
    destruct (pretty_item ty (without "type" i0)) as [o|e]; [|eauto].
    eapply IH; eassumption.
Qed.

(** X5. [prettify_result] returns a list with one element per region,
    except for a single region of type [Choices] or [TextArea]: then it
    returns the element itself, which is the only choice (or text) when
    there is exactly one and otherwise the region without its [type],
    a bare dictionary. A region without [type] makes the call raise. *)
Theorem prettify_result_shape :
  forall (v : list (dict Val)),
    (List.length v <> 1%nat ->
     forall r, prettify_result v = Return r ->
               exists out, r = VList out /\ List.length out = List.length v)
    /\ (forall i t,
          v = [i] -> Py.get "type" i = Some t ->
          prettify_result v
          = if is_str t "Choices" || is_str t "TextArea"
            then pretty_item t (without "type" i)
            else Return (VList [VDict (without "type" i)]))
    /\ (forall i, In i v -> Py.get "type" i = None ->
                  exists e, prettify_result v = Throw e).
Proof.
  intros v. splits.
  - intros Hlen r H. unfold prettify_result in H.
    destruct (prettify_loop v [] VNone) as [[out t]|e] eqn:Hl; [|discriminate].
    pose proof (prettify_loop_length _ _ _ _ _ Hl) as Hn. simpl in Hn.
    destruct (Nat.eqb_spec (List.length out) 1) as [E|_]; [lia|].
    rewrite andb_false_r in H. inversion H. exists out. auto.
  - intros i t -> Hty. unfold prettify_result. simpl. rewrite Hty.
    unfold pretty_item.
    destruct (is_str t "Choices") eqn:Hc; simpl.
    + destruct (only_or_whole "choices" (without "type" i)); simpl;
        [rewrite Hc|]; reflexivity.
    + destruct (is_str t "TextArea") eqn:Ht; simpl.
      * destruct (only_or_whole "text" (without "type" i)); simpl;
          [rewrite Hc, Ht|]; reflexivity.
      * rewrite Hc, Ht. reflexivity.
  - intros i Hin Hty. unfold prettify_result.
    destruct (prettify_loop_needs_type v i Hin Hty [] VNone) as (e & ->). eauto.
Qed.

Lemma prettify_result_witness :
  prettify_result
    [[("type", VStr "Choices"); ("choices", VList [VStr "yes"])]]
  = Return (VStr "yes")
  /\ prettify_result
       [[("type", VStr "Choices"); ("choices", VList [VStr "a"; VStr "b"])]]
     = Return (VDict [("choices", VList [VStr "a"; VStr "b"])])
  /\ (exists out,
         prettify_result
           [[("type", VStr "Choices"); ("choices", VList [VStr "yes"])];
            [("type", VStr "Labels"); ("labels", VList [VStr "PER"])]]
         = Return (VList out) /\ List.length out = 2%nat)
  /\ exists e, prettify_result [[("choices", VList [VStr "yes"])]] = Throw e.
Proof.
  splits.
  - destruct (prettify_result_shape
                [[("type", VStr "Choices"); ("choices", VList [VStr "yes"])]])
      as (_ & H & _).
    rewrite (H _ (VStr "Choices") eq_refl eq_refl). reflexivity.
  - destruct (prettify_result_shape
                [[("type", VStr "Choices"); ("choices", VList [VStr "a"; VStr "b"])]])
      as (_ & H & _).
    rewrite (H _ (VStr "Choices") eq_refl eq_refl). reflexivity.
  - destruct (prettify_result_shape
                [[("type", VStr "Choices"); ("choices", VList [VStr "yes"])];
                 [("type", VStr "Labels"); ("labels", VList [VStr "PER"])]])
      as (H & _ & _).
    destruct (H ltac:(discriminate) _ eq_refl) as (out & E & Hl).
    exists out. split; [|assumption]. rewrite <- E. reflexivity.
  - destruct (prettify_result_shape [[("choices", VList [VStr "yes"])]])
      as (_ & _ & H).
    apply (H [("choices", VList [VStr "yes"])]); [left|]; reflexivity.
Defined.

End UtilFacts.

(** ** [tokenize] *)

Module TokenizeFacts.

Import Tagger More.

Lemma sapp_nil_r (s : string) : String.append s "" = s.
Proof. induction s as [|c s IH]; simpl; [|rewrite IH]; reflexivity. Qed.

Lemma sapp_assoc (a b c : string) :
  String.append (String.append a b) c = String.append a (String.append b c).
Proof. induction a as [|x a IH]; simpl; [|rewrite IH]; reflexivity. Qed.

Lemma slength_app (a b : string) :
  String.length (String.append a b) = (String.length a + String.length b)%nat.
Proof. induction a as [|x a IH]; simpl; [|rewrite IH]; reflexivity. Qed.

Lemma substring_skip (pre s : string) (n : nat) :
  String.substring (String.length pre) n (String.append pre s)
  = String.substring 0 n s.
Proof. induction pre as [|x pre IH]; simpl; [reflexivity|assumption]. Qed.

Lemma substring_prefix (w r : string) :
  String.substring 0 (String.length w) (String.append w r) = w.
Proof.
  induction w as [|x w IH]; simpl.
  - destruct r; reflexivity.
  - rewrite IH. reflexivity.
Qed.

Lemma no_space_of_list (l : list ascii) :
  no_space (string_of_list_ascii l) = forallb (fun c => negb (is_space c)) l.
Proof. induction l as [|c l IH]; simpl; [|rewrite IH]; reflexivity. Qed.

Lemma forallb_rev {A : Type} (f : A -> bool) (l : list A) :
  forallb f (rev l) = forallb f l.
Proof.
  induction l as [|x l IH]; simpl; [reflexivity|].
  rewrite forallb_app, IH. simpl. rewrite andb_true_r. apply andb_comm.
Qed.

Lemma rev_word_is_word (c : ascii) (word : list ascii) :
  forallb (fun c => negb (is_space c)) (c :: word) = true ->
  is_word (string_of_list_ascii (rev (c :: word))) = true.
Proof.
  intros H. unfold is_word. rewrite no_space_of_list, forallb_rev, H.
  rewrite andb_true_r. simpl.
  destruct (rev word) as [|x l]; reflexivity.
Qed.

(** [text.split()] yields words only. *)
Lemma split_ws_words :
  forall (text : string) (word : list ascii),
    forallb (fun c => negb (is_space c)) word = true ->
    Forall (fun w => is_word w = true) (split_ws word text).
Proof.
  induction text as [|c text IH]; intros word Hw; simpl.
  - destruct word as [|x word]; constructor; [|constructor].
    apply rev_word_is_word. assumption.
  - destruct (is_space c) eqn:Hc.
    + destruct word as [|x word]; [apply IH; reflexivity|].
      constructor; [apply rev_word_is_word; assumption|apply IH; reflexivity].
    + apply IH. simpl. rewrite Hc, Hw. reflexivity.
Qed.

Lemma is_word_length (w : string) :
  is_word w = true -> Nat.ltb 0 (String.length w) = true.
Proof.
  unfold is_word. destruct w; simpl; [discriminate|reflexivity].
Qed.

(** The tokens of a list of words, started at offset [s]. *)
Lemma tokenize_from_spec :
  forall (words : list string) (s : Z),
    Forall (fun w => is_word w = true) words ->
    map fst (tokenize_from s words) = words
    /\ (forall t, In t (tokenize_from s words) -> s <= snd t)
    /\ (forall t, nth_error (tokenize_from s words) 0 = Some t -> snd t = s)
    /\ (forall i t u,
          nth_error (tokenize_from s words) i = Some t ->
          nth_error (tokenize_from s words) (S i) = Some u ->
          snd u = snd t + Z.of_nat (String.length (fst t)) + 1)
    /\ separated (tokenize_from s words) = true.
Proof.
  induction words as [|w words IH]; intros s Hw; simpl.
  - splits; auto.
    + intros t [].
    + intros t H. discriminate H.
    + intros [|i] t u H; discriminate H.
  - inversion Hw as [|? ? Hword Hrest]; subst.
    rewrite (is_word_length w Hword).
    destruct (IH (s + Z.of_nat (String.length w) + 1) Hrest)
      as (Hm & Hge & Hhd & Hnext & Hsep).
    pose proof (is_word_length w Hword) as Hlen. apply Nat.ltb_lt in Hlen.
    simpl. splits.
    + rewrite Hm. reflexivity.
    + intros t [<-|Ht]; simpl; [lia|]. specialize (Hge t Ht). lia.
    + intros t H. inversion H. reflexivity.
    + intros [|i] t u Ht Hu; simpl in Ht, Hu.
      * inversion Ht. subst t. simpl. apply Hhd. assumption.
      * eapply Hnext; eassumption.
    + rewrite Hsep, andb_true_r. apply andb_true_iff. split.
      * apply Z.ltb_lt. lia.
      * apply forallb_forall. intros u Hu. apply Z.leb_le.
        specialize (Hge u Hu). lia.
Qed.

(** X6. The tokens of [tokenize] on an ASCII text are non-empty and
    free of whitespace. The first starts at offset 0 and every next one starts
    [len(previous) + 1] after the previous one, whatever the amount of
    whitespace between them in the text; so the tokens never overlap. *)
Theorem tokenize_offsets_follow_word_lengths :
  forall (text : string),
    ascii_text text = true ->
    Forall (fun t => is_word (fst t) = true) (tokenize text)
    /\ (forall t, nth_error (tokenize text) 0 = Some t -> snd t = 0)
    /\ (forall i t u,
          nth_error (tokenize text) i = Some t ->
          nth_error (tokenize text) (S i) = Some u ->
          snd u = snd t + Z.of_nat (String.length (fst t)) + 1)
    /\ separated (tokenize text) = true.
Proof.
  intros text _. unfold tokenize.
  pose proof (split_ws_words text [] eq_refl) as Hw.
  destruct (tokenize_from_spec (split_ws [] text) 0 Hw)
    as (Hm & _ & Hhd & Hnext & Hsep).
  splits; auto.
  rewrite Forall_forall. intros t Ht.
  rewrite Forall_forall in Hw. apply Hw. rewrite <- Hm.
  apply in_map. assumption.
Qed.

Lemma tokenize_offsets_witness :
  nth_error (tokenize "John   lives") 1 = Some ("lives", 5).
Proof.
  destruct (tokenize_offsets_follow_word_lengths "John   lives" eq_refl)
    as (_ & _ & Hnext & _).
  assert (E : exists u, nth_error (tokenize "John   lives") 1 = Some u
                        /\ fst u = "lives").
  { eexists. split; reflexivity. }
  destruct E as ([w o] & Hu & Hw). simpl in Hw. subst w.
  rewrite Hu. f_equal. f_equal.
  apply (Hnext 0%nat ("John", 0) ("lives", o)); [reflexivity|assumption].
Defined.

(** *** Text made of words with single spaces *)

Lemma split_ws_word :
  forall (w : string) (acc : list ascii) (rest : string),
    no_space w = true ->
    split_ws acc (String.append w rest)
    = split_ws (rev (list_ascii_of_string w) ++ acc) rest.
Proof.
  induction w as [|c w IH]; intros acc rest H; simpl in *.
  - reflexivity.
  - apply andb_true_iff in H. destruct H as [Hc Hw].
    apply negb_true_iff in Hc. rewrite Hc.
    rewrite (IH (c :: acc) rest Hw). rewrite <- app_assoc. reflexivity.
Qed.

Lemma rev_word_back (w : string) :
  string_of_list_ascii (rev (rev (list_ascii_of_string w))) = w.
Proof. rewrite rev_involutive. apply string_of_list_ascii_of_string. Qed.

Lemma word_list_nonempty (w : string) :
  is_word w = true -> rev (list_ascii_of_string w) <> [].
Proof.
  destruct w as [|c w]; simpl; [discriminate|].
  intros _ H. apply app_eq_nil in H. destruct H as [_ H]. discriminate H.
Qed.

Lemma split_ws_join (words : list string) :
  Forall (fun w => is_word w = true) words ->
  split_ws [] (Config.join " " words) = words.
Proof.
  induction words as [|w words IH]; intros H; [reflexivity|].
  inversion H as [|? ? Hw Hrest]; subst.
  assert (Hn : no_space w = true)
    by (unfold is_word in Hw; apply andb_true_iff in Hw; tauto).
  pose proof (word_list_nonempty w Hw) as Hne.
  destruct words as [|w2 words].
  - simpl. rewrite <- (sapp_nil_r w) at 1.
    rewrite (split_ws_word w [] "" Hn), app_nil_r. simpl.
    destruct (rev (list_ascii_of_string w)) as [|x l] eqn:E; [congruence|].
    rewrite <- E, rev_word_back. reflexivity.
  - change (Config.join " " (w :: w2 :: words))
      with (String.append w (String " " (Config.join " " (w2 :: words)))).
    rewrite (split_ws_word w [] _ Hn), app_nil_r.
    change (split_ws (rev (list_ascii_of_string w))
                     (String " " (Config.join " " (w2 :: words))))
      with (match rev (list_ascii_of_string w) with
            | [] => split_ws [] (Config.join " " (w2 :: words))
            | _ :: _ =>
                string_of_list_ascii (rev (rev (list_ascii_of_string w)))
                :: split_ws [] (Config.join " " (w2 :: words))
            end).
    rewrite (IH Hrest).
    destruct (rev (list_ascii_of_string w)) as [|x l] eqn:E; [congruence|].
    rewrite <- E, rev_word_back. reflexivity.
Qed.

Lemma tokenize_from_positions :
  forall (words : list string) (pre : string),
    Forall (fun w => is_word w = true) words ->
    Forall (fun t => text_at (String.append pre (Config.join " " words)) t = fst t)
           (tokenize_from (Z.of_nat (String.length pre)) words).
Proof.
  induction words as [|w words IH]; intros pre H; simpl; [constructor|].
  inversion H as [|? ? Hw Hrest]; subst.
  rewrite (is_word_length w Hw).
  constructor.
  - unfold text_at. simpl fst. simpl snd. rewrite Nat2Z.id.
    destruct words as [|w2 words].
    + rewrite substring_skip. rewrite <- (sapp_nil_r w) at 2.
      apply substring_prefix.
    + rewrite substring_skip. apply substring_prefix.
  - destruct words as [|w2 words]; [constructor|].
    specialize (IH (String.append pre (String.append w " ")) Hrest).
    replace (Z.of_nat (String.length (String.append pre (String.append w " "))))
      with (Z.of_nat (String.length pre) + Z.of_nat (String.length w) + 1) in IH
      by (rewrite !slength_app; simpl; lia).
    replace (String.append (String.append pre (String.append w " "))
                           (Config.join " " (w2 :: words)))
      with (String.append pre (Config.join " " (w :: w2 :: words))) in IH.
    + exact IH.
    + change (Config.join " " (w :: w2 :: words))
        with (String.append w (String " " (Config.join " " (w2 :: words)))).
      rewrite !sapp_assoc. reflexivity.
Qed.

(** X7. On a text made of ASCII words joined by single spaces, [tokenize]
    gives back the words, and every offset is the position of its word:
    [text[start : start + len(token)] == token]. *)
Theorem tokenize_single_spaced_text :
  forall (words : list string),
    Forall (fun w => ascii_text w = true) words ->
    Forall (fun w => is_word w = true) words ->
    map fst (tokenize (Config.join " " words)) = words
    /\ Forall (fun t => text_at (Config.join " " words) t = fst t)
              (tokenize (Config.join " " words)).
Proof.
  intros words _ H. unfold tokenize. rewrite (split_ws_join words H).
  destruct (tokenize_from_spec words 0 H) as (Hm & _).
  split; [assumption|].
  apply (tokenize_from_positions words "" H).
Qed.

Lemma tokenize_single_spaced_witness :
  Forall (fun w => ascii_text w = true) ["John"; "lives"; "in"; "Paris"]
  /\ Forall (fun w => is_word w = true) ["John"; "lives"; "in"; "Paris"]
  /\ map fst (tokenize "John lives in Paris") = ["John"; "lives"; "in"; "Paris"]
  /\ Forall (fun t => text_at "John lives in Paris" t = fst t)
            (tokenize "John lives in Paris").
Proof.
  assert (H : Forall (fun w => is_word w = true) ["John"; "lives"; "in"; "Paris"])
    by (repeat constructor).
  assert (A : Forall (fun w => ascii_text w = true)
                     ["John"; "lives"; "in"; "Paris"])
    by (repeat constructor).
  split; [exact A|]. split; [exact H|].
  exact (tokenize_single_spaced_text ["John"; "lives"; "in"; "Paris"] A H).
Defined.

(** *** Repeated whitespace *)

Lemma split_ws_repeated_space :
  forall (a : string) (word : list ascii) (c d : ascii) (b : string),
    is_space c = true -> is_space d = true ->
    split_ws word (String.append a (String c (String d b)))
    = split_ws word (String.append a (String c b)).
Proof.
  induction a as [|x a IH]; intros word c d b Hc Hd; simpl.
  - rewrite Hc, Hd. reflexivity.
  - destruct (is_space x); rewrite IH; auto.
Qed.

(** X8. [tokenize] does not see how much whitespace separates the
    words of an ASCII text: a whitespace character at the start of the text, or one that
    follows a whitespace character, changes neither the tokens nor
    their offsets, although it moves the words in the text. *)
Theorem tokenize_ignores_extra_whitespace :
  forall (a b : string) (c d : ascii),
    ascii_text a = true -> ascii_text b = true ->
    is_space c = true -> is_space d = true ->
    tokenize (String c b) = tokenize b
    /\ tokenize (String.append a (String c (String d b)))
       = tokenize (String.append a (String c b)).
Proof.
  intros a b c d _ _ Hc Hd. unfold tokenize. split.
  - simpl. rewrite Hc. reflexivity.
  - rewrite split_ws_repeated_space; auto.
Qed.

Lemma tokenize_extra_whitespace_witness :
  tokenize " John  lives" = [("John", 0); ("lives", 5)]
  /\ text_at " John  lives" ("lives", 5) <> "lives".
Proof.
  destruct (tokenize_ignores_extra_whitespace "" "John  lives" " " " "
              eq_refl eq_refl eq_refl eq_refl) as (Hlead & _).
  destruct (tokenize_ignores_extra_whitespace "John" "lives" " " " "
              eq_refl eq_refl eq_refl eq_refl) as (_ & Hmid).
  split.
  - rewrite Hlead. simpl String.append in Hmid. rewrite Hmid. reflexivity.
  - discriminate.
Defined.

End TokenizeFacts.

(** ** More on [create_tokens_and_tags] *)

Module TaggerMore.

Import Tagger More TaggerFacts.

Lemma nth_error_exists {A : Type} (l : list A) (j : nat) :
  (j < List.length l)%nat -> exists x, nth_error l j = Some x.
Proof.
  intros H. destruct (nth_error l j) eqn:E; [eauto|].
  apply nth_error_None in E. lia.
Qed.

Lemma nth_error_lt {A : Type} (l : list A) (j : nat) (x : A) :
  nth_error l j = Some x -> (j < List.length l)%nat.
Proof. intros H. apply nth_error_Some. congruence. Qed.

Lemma prefix_B_or_I (st : Cursor) (toks : list Token) (cs : list Cursor)
      (tags : list string) (j : nat) (tok : Token) (c : Cursor) :
  prefix st = "B-" -> token_facts st toks cs tags j tok c ->
  prefix c = (if tagged_before cs toks c j then "I-" else "B-").
Proof.
  intros Hst (_ & _ & _ & _ & Hp & _). rewrite Hp, Hst.
  destruct (tagged_before cs toks c j); [reflexivity|].
  destruct (same_span c st); reflexivity.
Qed.

(** X9. [create_tokens_and_tags] never raises, whatever the spans
    are: it returns the token texts of the tokenizer, in order, and
    exactly one tag for each of them. *)
Theorem tagging_always_returns_one_tag_per_token :
  forall (span_tokenize : string -> list (nat * nat)) (text : string)
         (l : list Span),
    exists tokens tags,
      create_tokens_and_tags span_tokenize text l = Ok (tokens, tags)
      /\ tokens = map fst (tokens_and_idx_of span_tokenize text)
      /\ List.length tags = List.length tokens.
Proof.
  intros span_tokenize text l.
  destruct (create_tokens_and_tags_total span_tokenize text l) as (tags & H & Hl).
  eexists; exists tags. splits; [exact H|reflexivity|].
  rewrite length_map. assumption.
Qed.

(** X10. Every tag returned is ["O"], or [B-] or [I-] followed by the
    first label of a span of the batch; a batch in which no span has a
    label gives only ["O"]. *)
Theorem tags_are_O_or_first_labels :
  forall (span_tokenize : string -> list (nat * nat)) (text : string)
         (l : list Span),
    exists tokens tags,
      create_tokens_and_tags span_tokenize text l = Ok (tokens, tags)
      /\ (forall tag,
            In tag tags ->
            tag = "O"
            \/ exists sp lab labs,
                In sp l /\ labels sp = Some (lab :: labs)
                /\ (tag = String.append "B-" lab \/ tag = String.append "I-" lab))
      /\ ((forall sp, In sp l -> labels_truthy sp = false) ->
          forall tag, In tag tags -> tag = "O").
Proof.
  intros span_tokenize text l.
  assert (H : exists tokens tags,
            create_tokens_and_tags span_tokenize text l = Ok (tokens, tags)
            /\ forall tag,
                In tag tags ->
                tag = "O"
                \/ exists sp lab labs,
                    In sp l /\ labels sp = Some (lab :: labs)
                    /\ (tag = String.append "B-" lab
                        \/ tag = String.append "I-" lab)).
  { destruct (spans_usable l) eqn:Hu.
    - destruct (run_spec span_tokenize text l Hu)
        as (st & tags & cs & _ & Hpre & Hperm & Hrun & _ & _ & Hlen & Hlc & Hall).
      eexists; exists tags. split; [exact Hrun|].
      intros tag Hin. apply In_nth_error in Hin. destruct Hin as (j & Hj).
      pose proof (nth_error_lt _ _ _ Hj) as Hlt.
      destruct (nth_error_exists (tokens_and_idx_of span_tokenize text) j)
        as (tok & Htok); [lia|].
      destruct (nth_error_exists cs j) as (c & Hc); [lia|].
      pose proof (Hall j tok c Htok Hc) as Hf.
      pose proof (prefix_B_or_I _ _ _ _ _ _ _ Hpre Hf) as Hp.
      destruct Hf as (_ & Hin & _ & _ & _ & Hm & Hh).
      destruct (hits c tok) eqn:Hhit.
      + destruct (Hh eq_refl) as (lab & labs & Hl & Ht).
        rewrite Hj in Ht. inversion Ht. right.
        exists (span c), lab, labs. splits; auto.
        * eapply Permutation_in; eassumption.
        * rewrite Hp. destruct (tagged_before _ _ c j); auto.
      + rewrite (Hm eq_refl) in Hj. inversion Hj. auto.
    - unfold create_tokens_and_tags. rewrite Hu.
      eexists; eexists; split; [reflexivity|].
      intros tag Hin. apply repeat_spec in Hin. auto. }
  destruct H as (tokens & tags & Hrun & Halpha).
  exists tokens, tags. splits; auto.
  intros Hnone tag Hin.
  destruct (Halpha tag Hin) as [E|(sp & lab & labs & Hsp & Hl & _)]; [assumption|].
  specialize (Hnone sp Hsp). unfold labels_truthy in Hnone.
  rewrite Hl in Hnone. discriminate.
Qed.

Lemma tags_alphabet_witness :
  exists tokens tags,
    create_tokens_and_tags whitespace_spans "John lives in Paris"
      [mkSpan (Some 0) (Some 4) None; mkSpan (Some 14) (Some 19) (Some [])]
    = Ok (tokens, tags)
    /\ forall tag, In tag tags -> tag = "O".
Proof.
  destruct (tags_are_O_or_first_labels whitespace_spans "John lives in Paris"
              [mkSpan (Some 0) (Some 4) None; mkSpan (Some 14) (Some 19) (Some [])])
    as (tokens & tags & Hrun & _ & Hnone).
  exists tokens, tags. split; [assumption|].
  apply Hnone. intros sp [<-|[<-|[]]]; reflexivity.
Defined.

(** *** The tags form well-formed BIO runs *)

Lemma same_fields_refl (c : Cursor) : same_fields c c.
Proof. unfold same_fields. auto. Qed.

Lemma same_fields_trans (a b c : Cursor) :
  same_fields a b -> same_fields b c -> same_fields a c.
Proof.
  unfold same_fields. intros (A1 & A2 & A3 & A4) (B1 & B2 & B3 & B4).
  splits; congruence.
Qed.

Lemma tag_token_same_fields (c st2 : Cursor) (token tag : string) (ts : Z) :
  tag_token c token ts = Ok (tag, st2) -> same_fields st2 c.
Proof.
  intros H.
  destruct (tag_token_spec c token ts)
    as (tag' & st' & H' & E1 & E2 & E3 & E4 & _).
  rewrite H in H'. inversion H'. subst. unfold same_fields. auto.
Qed.

Lemma ready_same_fields (a b : Cursor) : same_fields a b -> ready b -> ready a.
Proof.
  unfold same_fields, ready. intros (E1 & E2 & E3 & E4) (R1 & R2 & R3).
  rewrite E1, E2, E3, E4. auto.
Qed.

Lemma advance_same_or_fewer (st c : Cursor) (ts : Z) :
  ready st -> advance st ts = Ok c ->
  ready c /\ (c = st \/ (List.length (spans c) < List.length (spans st))%nat).
Proof.
  intros Hr H.
  destruct (advance_spec st ts Hr) as (c' & H' & Hrc & Hch & _).
  rewrite H in H'. inversion H'. subst c'. split; [assumption|].
  destruct Hch as [E|(_ & Hl & _)]; auto.
Qed.

(** Along the sweep the cursor only moves down the list of spans, and
    while it stays on a span its fields stay put. *)
Lemma cursors_from_start :
  forall (toks : list Token) (st : Cursor) (cs : list Cursor) (j : nat) (c : Cursor),
    ready st -> cursors st toks = Ok cs -> nth_error cs j = Some c ->
    (List.length (spans c) <= List.length (spans st))%nat
    /\ (List.length (spans c) = List.length (spans st) -> same_fields c st).
Proof.
  induction toks as [|[token ts] toks IH]; intros st cs j c Hr Hcs Hj.
  - simpl in Hcs. inversion Hcs. subst. destruct j; discriminate.
  - apply cursors_cons_inv in Hcs.
    destruct Hcs as (c0 & tag & st2 & cs' & Ha & Ht & Hc & ->).
    destruct (advance_same_or_fewer st c0 ts Hr Ha) as (Hr0 & Hch).
    pose proof (tag_token_same_fields _ _ _ _ _ Ht) as Hsf.
    destruct j as [|j]; simpl in Hj.
    + inversion Hj. subst c.
      destruct Hch as [->|Hlt]; [split; [lia|intros _; apply same_fields_refl]|].
      split; lia.
    + pose proof (ready_same_fields _ _ Hsf Hr0) as Hr2.
      destruct (IH st2 cs' j c Hr2 Hc Hj) as (Hle & Heq).
      destruct Hsf as (S1 & S2 & S3 & S4). rewrite S4 in Hle, Heq.
      destruct Hch as [->|Hlt].
      * split; [assumption|]. intros E.
        apply same_fields_trans with (b := st2); [auto|].
        unfold same_fields. auto.
      * split; lia.
Qed.

Lemma cursors_between :
  forall (toks : list Token) (st : Cursor) (cs : list Cursor) (i j : nat)
         (ci cj : Cursor),
    ready st -> cursors st toks = Ok cs ->
    nth_error cs i = Some ci -> nth_error cs j = Some cj -> (i <= j)%nat ->
    (List.length (spans cj) <= List.length (spans ci))%nat
    /\ (List.length (spans cj) = List.length (spans ci) -> same_fields cj ci).
Proof.
  induction toks as [|[token ts] toks IH]; intros st cs i j ci cj Hr Hcs Hi Hj Hle.
  - simpl in Hcs. inversion Hcs. subst. destruct i; discriminate.
  - apply cursors_cons_inv in Hcs.
    destruct Hcs as (c0 & tag & st2 & cs' & Ha & Ht & Hc & ->).
    destruct (advance_same_or_fewer st c0 ts Hr Ha) as (Hr0 & _).
    pose proof (tag_token_same_fields _ _ _ _ _ Ht) as Hsf.
    pose proof (ready_same_fields _ _ Hsf Hr0) as Hr2.
    destruct i as [|i]; simpl in Hi.
    + inversion Hi. subst ci.
      destruct j as [|j]; simpl in Hj.
      * inversion Hj. subst cj. split; [lia|intros _; apply same_fields_refl].
      * destruct (cursors_from_start toks st2 cs' j cj Hr2 Hc Hj) as (Hl & He).
        destruct Hsf as (S1 & S2 & S3 & S4). rewrite S4 in Hl, He.
        split; [assumption|]. intros E.
        apply same_fields_trans with (b := st2); [auto|].
        unfold same_fields. auto.
    + destruct j as [|j]; [lia|]. simpl in Hj.
      apply (IH st2 cs' i j ci cj); auto. lia.
Qed.

Lemma hits_true_iff (c : Cursor) (t : Token) :
  hits c t = true <->
  span_truthy (span c) = true /\ labels_truthy (span c) = true
  /\ span_start c <= token_end_of (fst t) (snd t)
  /\ snd t <= span_end c.
Proof.
  unfold hits, outside, overlaps.
  rewrite !andb_true_iff, negb_true_iff, !orb_false_iff, !negb_false_iff.
  rewrite Z.leb_le, Z.geb_leb, Z.leb_le, Z.ltb_ge. tauto.
Qed.

Lemma hits_same_fields (a b : Cursor) (t : Token) :
  same_fields a b -> hits a t = hits b t.
Proof.
  intros (E1 & E2 & E3 & _). unfold hits, outside, overlaps.
  rewrite E1, E2, E3. reflexivity.
Qed.

Lemma separated_nth :
  forall (toks : list Token) (i j : nat) (ti tj : Token),
    separated toks = true -> (i < j)%nat ->
    nth_error toks i = Some ti -> nth_error toks j = Some tj ->
    snd ti + Z.of_nat (String.length (fst ti)) <= snd tj.
Proof.
  induction toks as [|t toks IH]; intros i j ti tj Hs Hlt Hi Hj.
  - destruct i; discriminate.
  - simpl in Hs. apply andb_true_iff in Hs. destruct Hs as [Hs Htl].
    apply andb_true_iff in Hs. destruct Hs as [_ Hall].
    destruct j as [|j]; [lia|]. simpl in Hj.
    destruct i as [|i]; simpl in Hi.
    + inversion Hi. subst t. rewrite forallb_forall in Hall.
      apply Z.leb_le. apply Hall. eapply nth_error_In; eassumption.
    + apply (IH i j); auto. lia.
Qed.

Lemma separated_nonempty :
  forall (toks : list Token) (i : nat) (t : Token),
    separated toks = true -> nth_error toks i = Some t ->
    0 < Z.of_nat (String.length (fst t)).
Proof.
  induction toks as [|t0 toks IH]; intros i t Hs Hi.
  - destruct i; discriminate.
  - simpl in Hs. apply andb_true_iff in Hs. destruct Hs as [Hs Htl].
    apply andb_true_iff in Hs. destruct Hs as [Hlen _].
    destruct i as [|i]; simpl in Hi.
    + inversion Hi. subst t0. apply Z.ltb_lt. assumption.
    + eapply IH; eassumption.
Qed.

Lemma firstn_In_nth {A : Type} :
  forall (l : list A) (j : nat) (x : A),
    In x (firstn j l) -> exists i, (i < j)%nat /\ nth_error l i = Some x.
Proof.
  induction l as [|y l IH]; intros j x H.
  - rewrite firstn_nil in H. contradiction.
  - destruct j as [|j]; simpl in H; [contradiction|].
    destruct H as [->|H].
    + exists 0%nat. split; [lia|reflexivity].
    + destruct (IH j x H) as (i & Hi & Hn). exists (S i). split; [lia|assumption].
Qed.

Lemma nth_error_combine {A B : Type} :
  forall (l : list A) (m : list B) (i : nat) (a : A) (b : B),
    nth_error (combine l m) i = Some (a, b) ->
    nth_error l i = Some a /\ nth_error m i = Some b.
Proof.
  induction l as [|x l IH]; intros m i a b H; simpl in H.
  - destruct i; discriminate.
  - destruct m as [|y m]; [destruct i; discriminate|].
    destruct i as [|i]; simpl in *.
    + inversion H. auto.
    + apply IH. assumption.
Qed.

(** X11. With tokens that are not empty and do not overlap (the
    tokenizer's contract) the tags are a well-formed BIO sequence: a tag
    [I-X] is never the first tag, and the tag before it is [B-X] or
    [I-X] with the same label. *)
Theorem inside_tag_continues_a_run :
  forall (span_tokenize : string -> list (nat * nat)) (text : string)
         (l : list Span),
    separated (tokens_and_idx_of span_tokenize text) = true ->
    exists tokens tags,
      create_tokens_and_tags span_tokenize text l = Ok (tokens, tags)
      /\ forall j lab,
          nth_error tags j = Some (String.append "I-" lab) ->
          exists i,
            j = S i
            /\ (nth_error tags i = Some (String.append "B-" lab)
                \/ nth_error tags i = Some (String.append "I-" lab)).
Proof.
  intros span_tokenize text l Hsep.
  destruct (spans_usable l) eqn:Hu.
  2: { unfold create_tokens_and_tags. rewrite Hu.
       eexists; eexists; split; [reflexivity|].
       intros j lab Hj. apply nth_error_In in Hj.
       apply repeat_spec in Hj. discriminate Hj. }
  destruct (run_spec span_tokenize text l Hu)
    as (st & tags & cs & Hrd & Hpre & _ & Hrun & _ & Hcs & Hlen & Hlc & Hall).
  eexists; exists tags. split; [exact Hrun|].
  intros j lab Hj.
  pose proof (nth_error_lt _ _ _ Hj) as Hlt.
  destruct (nth_error_exists (tokens_and_idx_of span_tokenize text) j)
    as (tj & Htj); [lia|].
  destruct (nth_error_exists cs j) as (cj & Hcj); [lia|].
  pose proof (Hall j tj cj Htj Hcj) as Hf.
  pose proof (prefix_B_or_I _ _ _ _ _ _ _ Hpre Hf) as Hp.
  destruct Hf as (_ & _ & _ & _ & _ & Hm & Hh).
  destruct (hits cj tj) eqn:Hhit.
  2: { rewrite (Hm eq_refl) in Hj. discriminate Hj. }
  destruct (Hh eq_refl) as (lab' & labs & Hl & Ht).
  rewrite Hj in Ht. inversion Ht as [Et]. clear Ht.
  rewrite Hp in Et.
  destruct (tagged_before cs (tokens_and_idx_of span_tokenize text) cj j) eqn:Htb;
    [|discriminate Et].
  simpl in Et. inversion Et. subst lab'. clear Et.
  unfold tagged_before in Htb. apply existsb_exists in Htb.
  destruct Htb as ([ci ti] & Hin & Hboth). simpl in Hboth.
  apply andb_true_iff in Hboth. destruct Hboth as [Hsame Hhi].
  apply firstn_In_nth in Hin. destruct Hin as (i & Hij & Hn).
  apply nth_error_combine in Hn. destruct Hn as [Hci Hti].
  destruct j as [|p]; [lia|]. exists p. split; [reflexivity|].
  destruct (nth_error_exists (tokens_and_idx_of span_tokenize text) p)
    as (tp & Htp); [lia|].
  destruct (nth_error_exists cs p) as (cp & Hcp); [lia|].
  unfold same_span in Hsame. apply Nat.eqb_eq in Hsame.
  destruct (cursors_between _ st cs i p ci cp Hrd Hcs Hci Hcp) as (L1 & _); [lia|].
  destruct (cursors_between _ st cs p (S p) cp cj Hrd Hcs Hcp Hcj) as (L2 & F2); [lia|].
  destruct (cursors_between _ st cs i (S p) ci cj Hrd Hcs Hci Hcj) as (_ & F3); [lia|].
  assert (Fjp : same_fields cj cp) by (apply F2; lia).
  assert (Fji : same_fields cj ci) by (apply F3; lia).
  assert (Hhp : hits cp tp = true).
  { rewrite <- (hits_same_fields cj cp tp Fjp).
    rewrite <- (hits_same_fields cj ci ti Fji) in Hhi.
    apply hits_true_iff in Hhit. apply hits_true_iff in Hhi.
    destruct Hhit as (T1 & T2 & _ & T4).
    destruct Hhi as (_ & _ & I3 & _).
    destruct Fji as (_ & Es & Ee & _).
    apply hits_true_iff. splits; auto.
    - unfold token_end_of in *.
      destruct (Nat.eq_dec i p) as [->|Hne].
      + rewrite Hti in Htp. inversion Htp. subst. assumption.
      + pose proof (separated_nth _ i p ti tp Hsep ltac:(lia) Hti Htp).
        pose proof (separated_nonempty _ p tp Hsep Htp). lia.
    - pose proof (separated_nth _ p (S p) tp tj Hsep ltac:(lia) Htp Htj).
      pose proof (separated_nonempty _ p tp Hsep Htp). lia. }
  pose proof (Hall p tp cp Htp Hcp) as Hfp.
  pose proof (prefix_B_or_I _ _ _ _ _ _ _ Hpre Hfp) as Hpp.
  destruct Hfp as (_ & _ & _ & _ & _ & _ & Hhp').
  destruct (Hhp' Hhp) as (lp & lsp & Hlp & Htagp).
  destruct Fjp as (Esp & _). rewrite <- Esp, Hl in Hlp. inversion Hlp. subst lp.
  rewrite Htagp, Hpp.
  destruct (tagged_before _ _ cp p); auto.
Qed.

Lemma inside_tag_witness :
  separated (tokens_and_idx_of whitespace_spans "John lives in Paris") = true
  /\ exists tokens tags,
      create_tokens_and_tags whitespace_spans "John lives in Paris"
        [mkSpan (Some 0) (Some 10) (Some ["PER"])] = Ok (tokens, tags)
      /\ nth_error tags 1 = Some "I-PER"
      /\ nth_error tags 0 = Some "B-PER".
Proof.
  split; [reflexivity|].
  destruct (inside_tag_continues_a_run whitespace_spans "John lives in Paris"
              [mkSpan (Some 0) (Some 10) (Some ["PER"])] eq_refl)
    as (tokens & tags & Hrun & Hbio).
  exists tokens, tags. split; [assumption|].
  assert (H1 : nth_error tags 1 = Some "I-PER").
  { vm_compute in Hrun. injection Hrun as _ <-. reflexivity. }
  split; [assumption|].
  destruct (Hbio 1%nat "PER" H1) as (i & Ei & [Hb|Hi]).
  - injection Ei as <-. exact Hb.
  - injection Ei as <-. vm_compute in Hrun. injection Hrun as _ <-.
    discriminate Hi.
Defined.

(** *** A single span *)

(** X12. With a single span [[start, end)] a token is tagged exactly
    when the span has a label and the token overlaps it, in the sense of
    line 108: [start <= token_end] and [token_start <= end - 1]; every
    other token is ["O"]. *)
Theorem single_span_tags_exactly_the_overlapping_tokens :
  forall (span_tokenize : string -> list (nat * nat)) (text : string)
         (s e : Z) (labs : option (list string)),
    exists tokens tags,
      create_tokens_and_tags span_tokenize text [mkSpan (Some s) (Some e) labs]
      = Ok (tokens, tags)
      /\ forall j token ts,
          nth_error (tokens_and_idx_of span_tokenize text) j = Some (token, ts) ->
          (nth_error tags j = Some "O" <->
           (labels_truthy (mkSpan (Some s) (Some e) labs) = false
            \/ ts + Z.of_nat (String.length token) - 1 < s
            \/ e - 1 < ts)).
Proof.
  intros span_tokenize text s e labs.
  destruct (run_spec span_tokenize text [mkSpan (Some s) (Some e) labs] eq_refl)
    as (st & tags & cs & _ & Hpre & Hperm & Hrun & _ & _ & Hlen & Hlc & Hall).
  eexists; exists tags. split; [exact Hrun|].
  intros j token ts Htok.
  pose proof (nth_error_lt _ _ _ Htok) as Hlt.
  destruct (nth_error_exists cs j) as (c & Hc); [lia|].
  pose proof (Hall j (token, ts) c Htok Hc) as Hf.
  pose proof (prefix_B_or_I _ _ _ _ _ _ _ Hpre Hf) as Hp.
  destruct Hf as ((Rs & Re & _) & Hin & _ & _ & _ & Hm & Hh).
  assert (Hsp : span c = mkSpan (Some s) (Some e) labs).
  { pose proof (Permutation_in _ Hperm Hin) as [E|[]]. congruence. }
  rewrite Hsp in Rs, Re. simpl in Rs, Re.
  inversion Rs as [Es]. inversion Re as [Ee].
  pose proof (hits_true_iff c (token, ts)) as Hiff.
  rewrite Hsp in Hiff. unfold token_end_of in Hiff. simpl in Hiff.
  destruct (hits c (token, ts)) eqn:Hhit.
  - destruct (proj1 Hiff eq_refl) as (_ & Hl & H1 & H2).
    destruct (Hh eq_refl) as (lab & labs' & _ & Ht).
    split.
    + intros HO. rewrite HO in Ht. inversion Ht as [E]. rewrite Hp in E.
      destruct (tagged_before _ _ c j); discriminate E.
    + unfold labels_truthy in *. simpl in *.
      intros [H|[H|H]]; [congruence|lia|lia].
  - split; [|intros _; apply Hm; reflexivity].
    intros _.
    destruct (labels_truthy (mkSpan (Some s) (Some e) labs)) eqn:Hl; [|auto].
    right.
    match goal with
    | |- ?a < ?b \/ ?c < ?d =>
        destruct (Z_lt_dec a b) as [H1|H1]; [left; exact H1|];
        destruct (Z_lt_dec c d) as [H2|H2]; [right; exact H2|]
    end.
    exfalso. assert (Hx : false = true); [|discriminate Hx].
    apply Hiff. unfold labels_truthy in *. simpl in *. splits; auto; lia.
Qed.

Lemma single_span_witness :
  exists tokens tags,
    create_tokens_and_tags whitespace_spans "John lives in Paris"
      [mkSpan (Some 5) (Some 13) (Some ["ACT"])] = Ok (tokens, tags)
    /\ nth_error tags 0 = Some "O"
    /\ nth_error tags 3 = Some "O".
Proof.
  destruct (single_span_tags_exactly_the_overlapping_tokens whitespace_spans
              "John lives in Paris" 5 13 (Some ["ACT"]))
    as (tokens & tags & Hrun & Hiff).
  exists tokens, tags. split; [assumption|]. split.
  - apply (Hiff 0%nat "John" 0); [reflexivity|]. right. left. simpl. lia.
  - apply (Hiff 3%nat "Paris" 14); [reflexivity|]. right. right. lia.
Defined.

(** *** The order in which the spans are given *)

Lemma keyed_with_key (l : list Span) :
  forallb has_bounds l = true -> keyed l = Ok (map with_key l).
Proof.
  induction l as [|sp l IH]; simpl; intros H; [reflexivity|].
  apply andb_true_iff in H. destruct H as [Hb Hl].
  rewrite (IH Hl). unfold item_start, with_key, has_bounds in *.
  destruct (start sp); [reflexivity|discriminate].
Qed.

Lemma key_le_trans : Relations_1.Transitive (fun a b : Z * Span => fst a <= fst b).
Proof. intros a b c H1 H2. lia. Qed.

Lemma same_key_same_item :
  forall (l : list (Z * Span)) (x y : Z * Span),
    NoDup (map fst l) -> In x l -> In y l -> fst x = fst y -> x = y.
Proof.
  induction l as [|z l IH]; intros x y Hnd Hx Hy E; [contradiction|].
  simpl in Hnd. inversion Hnd as [|? ? Hnot Hnd']; subst.
  destruct Hx as [->|Hx], Hy as [->|Hy]; auto.
  - exfalso. apply Hnot. rewrite E. apply in_map. assumption.
  - exfalso. apply Hnot. rewrite <- E. apply in_map. assumption.
Qed.

(** A list sorted on pairwise distinct keys is determined by its
    elements. *)
Lemma sorted_distinct_unique :
  forall (a b : list (Z * Span)),
    Sorted (fun x y => fst x <= fst y) a ->
    Sorted (fun x y => fst x <= fst y) b ->
    Permutation a b -> NoDup (map fst a) -> a = b.
Proof.
  induction a as [|x a IH]; intros b Sa Sb Hp Hnd.
  - apply Permutation_nil in Hp. congruence.
  - destruct b as [|y b].
    + apply Permutation_sym, Permutation_nil in Hp. discriminate.
    + assert (Hxy : x = y).
      { pose proof (Sorted_extends key_le_trans Sa) as Fa.
        pose proof (Sorted_extends key_le_trans Sb) as Fb.
        rewrite Forall_forall in Fa, Fb.
        assert (Hy : In y (x :: a))
          by (eapply Permutation_in; [apply Permutation_sym; eassumption|left; reflexivity]).
        assert (Hx : In x (y :: b))
          by (eapply Permutation_in; [eassumption|left; reflexivity]).
        apply (same_key_same_item (x :: a)); auto; [left; reflexivity|].
        destruct Hy as [->|Hy]; [reflexivity|].
        destruct Hx as [->|Hx]; [reflexivity|].
        pose proof (Fa y Hy). pose proof (Fb x Hx). lia. }
      subst y. f_equal. apply IH.
      * inversion Sa. assumption.
      * inversion Sb. assumption.
      * eapply Permutation_cons_inv. eassumption.
      * simpl in Hnd. inversion Hnd. assumption.
Qed.

Lemma distinct_starts_distinct_keys (l : list Span) :
  forallb has_bounds l = true -> NoDup (map start l) ->
  NoDup (map fst (map with_key l)).
Proof.
  induction l as [|sp l IH]; simpl; intros Hb Hnd; [constructor|].
  apply andb_true_iff in Hb. destruct Hb as [Hsp Hl].
  inversion Hnd as [|? ? Hnot Hnd']; subst.
  constructor; [|apply IH; assumption].
  intros Hin. rewrite map_map in Hin. apply in_map_iff in Hin.
  destruct Hin as (sp' & E & Hin'). apply Hnot.
  rewrite forallb_forall in Hl. specialize (Hl sp' Hin').
  unfold has_bounds in Hsp, Hl. unfold with_key in E. simpl in E.
  destruct (start sp) as [z|] eqn:E1; [|discriminate].
  destruct (start sp') as [z'|] eqn:E2; [|discriminate].
  subst z'. rewrite <- E2. apply in_map. assumption.
Qed.

Lemma spans_usable_perm (l l' : list Span) :
  Permutation l l' -> spans_usable l = spans_usable l'.
Proof.
  intros Hp.
  destruct l as [|a l], l' as [|b l'].
  - reflexivity.
  - apply Permutation_nil in Hp. discriminate.
  - apply Permutation_sym, Permutation_nil in Hp. discriminate.
  - unfold spans_usable.
    destruct (forallb has_bounds (a :: l)) eqn:E1.
    + symmetry. eapply forallb_perm; eassumption.
    + destruct (forallb has_bounds (b :: l')) eqn:E2; [|reflexivity].
      rewrite (forallb_perm has_bounds _ _ (Permutation_sym Hp) E2) in E1.
      discriminate.
Qed.

(** X13. The result does not depend on the order in which the spans
    are given, as long as their [start] values are pairwise distinct. *)
Theorem span_order_is_irrelevant_for_distinct_starts :
  forall (span_tokenize : string -> list (nat * nat)) (text : string)
         (l l' : list Span),
    Permutation l l' -> NoDup (map start l) ->
    create_tokens_and_tags span_tokenize text l
    = create_tokens_and_tags span_tokenize text l'.
Proof.
  intros span_tokenize text l l' Hp Hnd.
  unfold create_tokens_and_tags.
  rewrite <- (spans_usable_perm l l' Hp).
  destruct (spans_usable l) eqn:Hu; [|reflexivity].
  destruct (spans_usable_inv l Hu) as [_ Hall].
  assert (Hall' : forallb has_bounds l' = true)
    by (eapply forallb_perm; eassumption).
  unfold sorted_by_start.
  rewrite (keyed_with_key l Hall), (keyed_with_key l' Hall'). simpl.
  rewrite (sorted_distinct_unique (stable_sort (map with_key l))
                                  (stable_sort (map with_key l'))).
  - reflexivity.
  - apply stable_sort_sorted.
  - apply stable_sort_sorted.
  - eapply perm_trans; [apply stable_sort_perm|].
    eapply perm_trans; [|apply Permutation_sym, stable_sort_perm].
    apply Permutation_map. assumption.
  - eapply Permutation_NoDup.
    + apply Permutation_map, Permutation_sym, stable_sort_perm.
    + apply distinct_starts_distinct_keys; assumption.
Qed.

Lemma span_order_witness :
  create_tokens_and_tags whitespace_spans "John lives in Paris"
    [mkSpan (Some 14) (Some 19) (Some ["LOC"]); mkSpan (Some 0) (Some 4) (Some ["PER"])]
  = create_tokens_and_tags whitespace_spans "John lives in Paris"
      [mkSpan (Some 0) (Some 4) (Some ["PER"]); mkSpan (Some 14) (Some 19) (Some ["LOC"])].
Proof.
  apply span_order_is_irrelevant_for_distinct_starts.
  - apply perm_swap.
  - constructor; [|constructor; [|constructor]].
    + intros [H|[]]. discriminate H.
    + intros [].
Defined.

End TaggerMore.

(** ** More on [parse_config] *)

Module ConfigMore.

Import Config ConfigFacts.

(** *** Labels below an output tag always find an owner *)

Lemma flat_map_ancestors_before (A : list Node) :
  forall (cs : list Node),
    Forall (fun n =>
              forall a0 before after x anc,
                iter_from a0 n = (before ++ (x, anc) :: after)%list ->
                forall a, In a anc -> In a a0 \/ exists up, In (a, up) before) cs ->
    forall before after x anc,
      flat_map (iter_from A) cs = (before ++ (x, anc) :: after)%list ->
      forall a, In a anc -> In a A \/ exists up, In (a, up) before.
Proof.
  induction cs as [|c cs IHcs]; intros IH before after x anc Hrest a Ha;
    simpl in Hrest.
  - destruct before; discriminate.
  - inversion IH as [|? ? Hc Hcs]; subst.
    apply app_eq_app in Hrest.
    destruct Hrest as (l & [[E1 E2]|[E1 E2]]).
    + destruct l as [|y l]; simpl in E2.
      * destruct (IHcs Hcs [] after x anc (eq_sym E2) a Ha) as [Hl|(up & [])].
        left. assumption.
      * inversion E2. subst y. apply (Hc _ _ _ _ _ E1 a Ha).
    + destruct (IHcs Hcs l after x anc E2 a Ha) as [Hl|(up & Hup)];
        [left; assumption|].
      right. exists up. subst before. apply in_or_app. right. assumption.
Qed.

(** In document order every ancestor of a node comes before the node. *)
Lemma iter_from_ancestors_before :
  forall (n : Node) (a0 : list Node) (before after : list (Node * list Node))
         (x : Node) (anc : list Node),
    iter_from a0 n = (before ++ (x, anc) :: after)%list ->
    forall a, In a anc -> In a a0 \/ exists up, In (a, up) before.
Proof.
  induction n as [t at_ cs IH] using Node_nested_ind.
  intros a0 before after x anc H a Ha. simpl in H.
  destruct before as [|b before]; simpl in H.
  - inversion H. subst. left. assumption.
  - inversion H as [[Hb Hrest]]. clear H.
    destruct (flat_map_ancestors_before _ cs IH before after x anc Hrest a Ha)
      as [[<-|Hin]|(up & Hup)].
    + right. exists a0. left. reflexivity.
    + left. assumption.
    + right. exists up. right. assumption.
Qed.

Lemma outputs_mem_kept :
  forall (nodes : list (Node * list Node)) (st st' : Acc) (k : string),
    visit_all st nodes = Ok st' ->
    Py.mem k (outputs st) = true -> Py.mem k (outputs st') = true.
Proof.
  intros nodes st st' k H Hm.
  pose proof (outputs_after nodes st st' H k) as Ho.
  unfold Py.mem in *.
  destruct (last_named _is_output_tag k nodes) as [n|].
  - destruct Ho as (toName & cond & _ & ->). reflexivity.
  - rewrite Ho. assumption.
Qed.

Lemma visited_output_is_recorded :
  forall (nodes : list (Node * list Node)) (st st' : Acc)
         (a : Node) (up : list Node) (k : string),
    visit_all st nodes = Ok st' ->
    In (a, up) nodes -> _is_output_tag a = true -> attr "name" a = Some k ->
    Py.mem k (outputs st') = true.
Proof.
  intros nodes st st' a up k H Hin Ho Hn.
  pose proof (outputs_after nodes st st' H k) as Hk.
  unfold Py.mem.
  destruct (last_named _is_output_tag k nodes) as [n|] eqn:E.
  - destruct Hk as (toName & cond & _ & ->). reflexivity.
  - pose proof (proj1 (last_named_None _ _ _) E (a, up) Hin Hn) as Hf.
    simpl in Hf. congruence.
Qed.

Lemma owner_exists (outs : dict OutputInfo) :
  forall (anc : list Node) (a : Node) (m : string),
    In a anc -> attr "name" a = Some m -> Py.mem m outs = true ->
    exists owner, _get_parent_output_tag_name anc outs = Some owner.
Proof.
  induction anc as [|p up IH]; intros a m Hin Ha Hm; [contradiction|].
  simpl. destruct (attr "name" p) as [k|] eqn:Hp.
  - destruct (Py.mem k outs) eqn:Hk; [eauto|].
    destruct Hin as [->|Hin]; [congruence|]. eapply IH; eassumption.
  - destruct Hin as [->|Hin]; [congruence|]. eapply IH; eassumption.
Qed.

(** X14. A [Label] or [Choice] node that has an output tag among its
    ancestors always finds an owner: the ancestors were visited before
    it, so their names are already keys of the output map. When its
    [alias] or [value] gives a non-empty value, the label is recorded
    under that owner with the node's attributes. *)
Theorem label_below_output_tag_is_recorded :
  forall (t : Node) (before after : list (Node * list Node))
         (n a : Node) (ancestors : list Node),
    iter t = (before ++ (n, ancestors) :: after)%list ->
    in_set (tag n) _LABEL_TAGS = true ->
    In a ancestors -> _is_output_tag a = true ->
    exists st st1 st2 owner,
      visit_all empty_acc before = Ok st
      /\ classify st n = Ok st1
      /\ visit st (n, ancestors) = Ok st2
      /\ _get_parent_output_tag_name ancestors (outputs st1) = Some owner
      /\ forall c s,
          or_else (attr "alias" n) (attr "value" n) = Some (String c s) ->
          Py.get (String c s) (labels_of owner (labels st2))
          = Some (Py.of_items (attrib n)).
Proof.
  intros t before after n a ancestors Hiter Hlab Ha Hout.
  destruct (visit_all_total before empty_acc) as (st & Hst).
  destruct (visit_total st (n, ancestors)) as (st1 & Hc & Hv). simpl in Hc, Hv.
  assert (Hname : exists k, attr "name" a = Some k).
  { unfold _is_output_tag in Hout. apply andb_true_iff in Hout.
    destruct Hout as [Hout _]. apply andb_true_iff in Hout.
    destruct Hout as [Hn _]. destruct (truthy_inv _ Hn) as (c & s & E). eauto. }
  destruct Hname as (k & Hk).
  assert (Hmem : Py.mem k (outputs st1) = true).
  { destruct (iter_from_ancestors_before t [] before after n ancestors Hiter a Ha)
      as [[]|(up & Hup)].
    pose proof (visited_output_is_recorded _ _ _ a up k Hst Hup Hout Hk) as Hm.
    assert (Hone : visit_all st [(n, ancestors)]
                   = Ok (collect_label st1 n ancestors))
      by (simpl; rewrite Hv; reflexivity).
    pose proof (outputs_mem_kept _ _ _ k Hone Hm) as Hm'.
    destruct (collect_label_keeps st1 n ancestors) as [_ E].
    rewrite E in Hm'. assumption. }
  destruct (owner_exists (outputs st1) ancestors a k Ha Hk Hmem) as (owner & Ho).
  exists st, st1, (collect_label st1 n ancestors), owner.
  splits; auto.
  intros c s Hval. rewrite collect_label_event. unfold label_event. cbn [fst snd].
  rewrite Hlab, Ho, Hval. rewrite labels_of_set, String.eqb_refl.
  apply get_set_same.
Qed.

Lemma label_below_output_tag_witness :
  exists st2 owner,
    visit (mkAcc [] [("c1", mkOutput "Choices" ["t1"] None)] [] [])
          (cfg_choice, [cfg_view; cfg_ownership]) = Ok st2
    /\ owner = "c1"
    /\ Py.get "x" (labels_of owner (labels st2)) = Some [("value", "x")].
Proof.
  destruct (label_below_output_tag_is_recorded cfg_ownership
              [(cfg_ownership, []); (cfg_view, [cfg_ownership])] []
              cfg_choice cfg_ownership [cfg_view; cfg_ownership]
              eq_refl eq_refl (or_intror (or_introl eq_refl)) eq_refl)
    as (st & st1 & st2 & owner & Hst & Hc & Hv & Ho & Hl).
  vm_compute in Hst. injection Hst as <-.
  vm_compute in Hc. injection Hc as <-.
  exists st2, owner. split; [exact Hv|].
  vm_compute in Ho. injection Ho as <-.
  split; [reflexivity|]. apply (Hl "x"%char ""). reflexivity.
Defined.

(** *** Input descriptors *)

Lemma lstrip_no_lead (ch : ascii) (s rest : string) :
  lstrip ch s <> String ch rest.
Proof.
  induction s as [|c s IH]; simpl; [discriminate|].
  destruct (Ascii.eqb_spec c ch) as [->|Hne]; [assumption|].
  intros E. inversion E. congruence.
Qed.

Lemma found_inputs_In (names : list string) (ins : dict InputInfo) (d : InputInfo) :
  In d (found_inputs names ins) ->
  exists name, In name names /\ Py.get name ins = Some d.
Proof.
  unfold found_inputs. rewrite in_flat_map.
  intros (name & Hn & Hd). exists name. split; [assumption|].
  destruct (Py.get name ins) as [d'|]; [|contradiction].
  destruct Hd as [->|[]]. reflexivity.
Qed.

(** X15. Every descriptor in the [inputs] of an entry comes from a
    node of the tree that is recorded as an input tag and is named by
    one of the entry's [to_name]: its [type] is the kind of that node
    and its [value] is the node's [value] with every leading ["$"]
    removed, so it never starts with ["$"]. *)
Theorem input_descriptors_come_from_input_tags :
  forall (t : Node),
    exists schema diags,
      parse_tree t = Ok (schema, diags)
      /\ forall T info d,
          In (T, info) schema -> In d (ti_inputs info) ->
          (forall rest, in_value d <> String "$" rest)
          /\ exists n anc name value,
              In (n, anc) (iter t) /\ In name (ti_to_name info)
              /\ attr "name" n = Some name /\ input_only n = true
              /\ attr "value" n = Some value
              /\ d = mkInput (tag n) (lstrip "$" value).
Proof.
  intros t. destruct (parse_tree_total t) as (st & Hv & Hp).
  eexists; eexists; split; [exact Hp|].
  intros T info d Hin Hd.
  destruct (complete_In _ _ _ _ _ Hin) as (oi & _ & ->). simpl in *.
  destruct (found_inputs_In _ _ _ Hd) as (name & Hname & Hg).
  pose proof (inputs_after _ _ _ Hv name) as Hi.
  destruct (last_named input_only name (iter t)) as [n|] eqn:E.
  - destruct Hi as (value & Hval & Hget).
    rewrite Hg in Hget. inversion Hget. subst d.
    destruct (last_named_Some _ _ _ _ E) as (Hio & Hn & anc & Hnode).
    split; [intros rest; apply lstrip_no_lead|].
    exists n, anc, name, value. splits; auto.
  - rewrite Hi in Hg. discriminate Hg.
Qed.

Lemma input_descriptors_witness :
  exists schema diags info,
    parse_tree cfg_labels = Ok (schema, diags)
    /\ In ("T", info) schema
    /\ In (mkInput "Text" "text") (ti_inputs info)
    /\ (forall rest, in_value (mkInput "Text" "text") <> String "$" rest).
Proof.
  destruct (input_descriptors_come_from_input_tags cfg_labels)
    as (schema & diags & Hp & Hall).
  exists schema, diags.
  vm_compute in Hp. injection Hp as <- <-.
  eexists. split; [reflexivity|]. split; [left; reflexivity|].
  split; [left; reflexivity|].
  destruct (Hall "T" _ (mkInput "Text" "text") (or_introl eq_refl) (or_introl eq_refl))
    as (Hno & _).
  exact Hno.
Defined.

(** *** Label values *)

Lemma first_seen_In (l : list string) :
  forall seen v, In v (first_seen seen l) -> In v l.
Proof.
  induction l as [|x l IH]; intros seen v H; simpl in *; [contradiction|].
  destruct (in_set x seen).
  - right. eapply IH. eassumption.
  - destruct H as [->|H]; [left; reflexivity|right; eapply IH; eassumption].
Qed.

Lemma label_events_In :
  forall (nodes : list (Node * list Node)) (st : Acc)
         (ev : string * (string * dict string)),
    In ev (label_events st nodes) ->
    exists x outs, In x nodes /\ label_event outs x = Some ev.
Proof.
  induction nodes as [|x nodes IH]; intros st ev H; simpl in H; [contradiction|].
  destruct (classify st (fst x)) as [st1|e]; [|contradiction].
  destruct (label_event (outputs st1) x) as [ev'|] eqn:E.
  - destruct H as [->|H].
    + exists x, (outputs st1). split; [left; reflexivity|assumption].
    + destruct (IH _ _ H) as (y & outs & Hy & Hev).
      exists y, outs. split; [right|]; assumption.
  - destruct (IH _ _ H) as (y & outs & Hy & Hev).
    exists y, outs. split; [right|]; assumption.
Qed.

(** X16. Every value in the [labels] of an entry is a non-empty string
    taken from a [Label] or [Choice] node of the tree: it is the node's
    [alias] when that is present and not empty, and its [value]
    otherwise. *)
Theorem label_values_are_alias_or_value :
  forall (t : Node),
    exists schema diags,
      parse_tree t = Ok (schema, diags)
      /\ forall T info v,
          In (T, info) schema -> In v (ti_labels info) ->
          v <> ""
          /\ exists n anc,
              In (n, anc) (iter t)
              /\ in_set (tag n) _LABEL_TAGS = true
              /\ (attr "alias" n = Some v
                  \/ (Py.truthy (attr "alias" n) = false
                      /\ attr "value" n = Some v)).
Proof.
  intros t. destruct (parse_tree_total t) as (st & Hv & Hp).
  eexists; eexists; split; [exact Hp|].
  intros T info v Hin Hlab.
  destruct (complete_In _ _ _ _ _ Hin) as (oi & _ & ->). simpl in Hlab.
  rewrite (labels_after _ _ _ Hv T) in Hlab. simpl in Hlab.
  rewrite (keys_upsert_all _ [] []) in Hlab by (intros k; reflexivity).
  simpl in Hlab. apply first_seen_In in Hlab.
  unfold events_of in Hlab. rewrite map_map in Hlab.
  apply in_map_iff in Hlab. destruct Hlab as ([owner [v' a]] & Ev & Hf).
  simpl in Ev. subst v'. apply filter_In in Hf. destruct Hf as [Hev _].
  destruct (label_events_In _ _ _ Hev) as ([n anc] & outs & Hnode & Hle).
  unfold label_event in Hle. cbn [fst snd] in Hle.
  destruct (in_set (tag n) _LABEL_TAGS) eqn:Htag; [|discriminate].
  destruct (_get_parent_output_tag_name anc outs); [|discriminate].
  destruct (or_else (attr "alias" n) (attr "value" n)) as [[|c0 s0]|] eqn:Hor;
    try discriminate.
  inversion Hle. subst. split; [discriminate|].
  exists n, anc. splits; auto.
  unfold or_else in Hor.
  destruct (Py.truthy (attr "alias" n)) eqn:Hal; auto.
Qed.

Lemma label_values_witness :
  exists schema diags info,
    parse_tree
      (Element "Choices" [("name", "c"); ("toName", "t")]
         [Element "Choice" [("value", "positive"); ("alias", "pos")] [];
          Element "Choice" [("value", "negative"); ("alias", "")] [];
          Element "Choice" [("alias", "")] []])
    = Ok (schema, diags)
    /\ In ("c", info) schema
    /\ ti_labels info = ["pos"; "negative"]
    /\ "pos" <> "".
Proof.
  destruct (label_values_are_alias_or_value
              (Element "Choices" [("name", "c"); ("toName", "t")]
                 [Element "Choice" [("value", "positive"); ("alias", "pos")] [];
                  Element "Choice" [("value", "negative"); ("alias", "")] [];
                  Element "Choice" [("alias", "")] []]))
    as (schema & diags & Hp & Hall).
  exists schema, diags.
  vm_compute in Hp. injection Hp as <- <-.
  eexists. split; [reflexivity|]. split; [left; reflexivity|].
  split; [reflexivity|].
  destruct (Hall "c" _ "pos" (or_introl eq_refl) (or_introl eq_refl)) as (Hne & _).
  exact Hne.
Defined.

(** *** Conditional rules and [to_name] *)

Lemma when_rule_spec (n : Node) :
  (if Py.truthy (attr "whenTagName" n) then
     v <- item "whenTagName" n ;; Ok (Some (mkCond "tag" v))
   else if Py.truthy (attr "whenLabelValue" n) then
     v <- item "whenLabelValue" n ;; Ok (Some (mkCond "label" v))
   else if Py.truthy (attr "whenChoiceValue" n) then
     v <- item "whenChoiceValue" n ;; Ok (Some (mkCond "choice" v))
   else Ok None) = Ok (More.when_rule n).
Proof.
  unfold More.when_rule, item.
  destruct (attr "whenTagName" n) as [[|c1 s1]|];
    destruct (attr "whenLabelValue" n) as [[|c2 s2]|];
    destruct (attr "whenChoiceValue" n) as [[|c3 s3]|]; reflexivity.
Qed.

Lemma conditionals_of_rule (n : Node) :
  conditionals_of n = Ok (More.rule_of n).
Proof.
  unfold conditionals_of, More.rule_of. rewrite when_rule_spec.
  repeat match goal with
         | |- context [match ?x with _ => _ end] => destruct x; try reflexivity
         end.
Qed.

Lemma classify_output_rule (st : Acc) (n : Node) :
  _is_output_tag n = true ->
  exists c s toName,
    attr "name" n = Some (String c s)
    /\ attr "toName" n = Some toName
    /\ classify st n
       = Ok (mkAcc (inputs st)
                   (Py.set (String c s)
                           (mkOutput (tag n) (split_on "," toName) (More.rule_of n))
                           (outputs st))
                   (labels st) (log st)).
Proof.
  intros H. unfold classify. rewrite H.
  unfold _is_output_tag in H.
  apply andb_true_iff in H. destruct H as [H _].
  apply andb_true_iff in H. destruct H as [Hn Ht].
  destruct (item_of_truthy _ _ Hn) as (c & s & En & In').
  destruct (item_of_truthy _ _ Ht) as (c' & s' & Et & It).
  exists c, s, (String c' s').
  rewrite It, conditionals_of_rule, In'. simpl. auto.
Qed.

Lemma outputs_after_rule :
  forall (nodes : list (Node * list Node)) (st st' : Acc),
    visit_all st nodes = Ok st' ->
    forall k,
      match last_named _is_output_tag k nodes with
      | None => Py.get k (outputs st') = Py.get k (outputs st)
      | Some n =>
          exists toName,
            attr "toName" n = Some toName
            /\ Py.get k (outputs st')
               = Some (mkOutput (tag n) (split_on "," toName) (More.rule_of n))
      end.
Proof.
  induction nodes as [|[x anc] nodes IH]; intros st st' H k; simpl in H.
  - inversion H. reflexivity.
  - apply bind_inv in H. destruct H as (sx & Hx & H).
    destruct (visit_total st (x, anc)) as (s1 & Hc & Hv). simpl in Hc, Hv.
    rewrite Hv in Hx. inversion Hx. subst sx. clear Hx Hv.
    specialize (IH _ _ H k). simpl.
    destruct (last_named _is_output_tag k nodes) as [m|]; [exact IH|].
    rewrite IH. destruct (collect_label_keeps s1 x anc) as [_ ->].
    destruct (_is_output_tag x) eqn:Ho; simpl.
    + destruct (classify_output_rule st x Ho) as (c & s & toName & Hn & Ht & Hcl).
      rewrite Hcl in Hc. inversion Hc. subst s1. simpl. rewrite Hn.
      destruct (String.eqb_spec (String c s) k) as [<-|Hne].
      * exists toName. split; [assumption|apply get_set_same].
      * apply get_set_other. assumption.
    + destruct (_is_input_tag x) eqn:Hi.
      * destruct (classify_input st x) as (c & s & v & _ & _ & Hcl).
        { unfold input_only. rewrite Ho, Hi. reflexivity. }
        rewrite Hcl in Hc. inversion Hc. reflexivity.
      * rewrite (classify_other st x Ho Hi) in Hc. inversion Hc. reflexivity.
Qed.

(** The entry of the Schema under [k] and the node it comes from. *)
Lemma entry_of_last_output_tag (t : Node) :
  exists schema diags,
    parse_tree t = Ok (schema, diags)
    /\ forall k,
        match last_named _is_output_tag k (iter t) with
        | None => Py.get k schema = None
        | Some n =>
            exists info toName,
              Py.get k schema = Some info
              /\ attr "toName" n = Some toName
              /\ ti_to_name info = split_on "," toName
              /\ ti_conditionals info = More.rule_of n
        end.
Proof.
  destruct (parse_tree_total t) as (st & Hv & Hp).
  eexists; eexists; split; [exact Hp|].
  intros k. cbn [fst]. rewrite complete_get.
  pose proof (outputs_after_rule _ _ _ Hv k) as Ho.
  destruct (last_named _is_output_tag k (iter t)) as [n|].
  - destruct Ho as (toName & Ht & ->).
    eexists; exists toName. splits; auto.
  - rewrite Ho. reflexivity.
Qed.

(** X17. The [conditionals] of an entry come from the attributes of
    the output tag it was built from: there is none unless [perRegion]
    is ["true"], and then the first non-empty one of [whenTagName],
    [whenLabelValue] and [whenChoiceValue] gives the rule, in this
    order of precedence. *)
Theorem conditionals_follow_precedence :
  forall (t : Node),
    exists schema diags,
      parse_tree t = Ok (schema, diags)
      /\ forall k n,
          last_named _is_output_tag k (iter t) = Some n ->
          exists info,
            Py.get k schema = Some info
            /\ (attr "perRegion" n <> Some "true" -> ti_conditionals info = None)
            /\ (attr "perRegion" n = Some "true" ->
                (forall c s,
                    attr "whenTagName" n = Some (String c s) ->
                    ti_conditionals info = Some (mkCond "tag" (String c s)))
                /\ (forall c s,
                      Py.truthy (attr "whenTagName" n) = false ->
                      attr "whenLabelValue" n = Some (String c s) ->
                      ti_conditionals info = Some (mkCond "label" (String c s)))
                /\ (forall c s,
                      Py.truthy (attr "whenTagName" n) = false ->
                      Py.truthy (attr "whenLabelValue" n) = false ->
                      attr "whenChoiceValue" n = Some (String c s) ->
                      ti_conditionals info = Some (mkCond "choice" (String c s)))
                /\ (Py.truthy (attr "whenTagName" n) = false ->
                    Py.truthy (attr "whenLabelValue" n) = false ->
                    Py.truthy (attr "whenChoiceValue" n) = false ->
                    ti_conditionals info = None)).
Proof.
  intros t. destruct (entry_of_last_output_tag t) as (schema & diags & Hp & Hall).
  exists schema, diags. split; [assumption|].
  intros k n Hl. specialize (Hall k). rewrite Hl in Hall.
  destruct Hall as (info & toName & Hg & _ & _ & Hc).
  exists info. split; [assumption|]. rewrite Hc. unfold More.rule_of. split.
  - intros Hne. destruct (attr "perRegion" n) as [v|]; [|reflexivity].
    destruct (String.eqb_spec v "true") as [->|Hv]; [congruence|].
    repeat match goal with
           | |- context [match ?x with _ => _ end] => destruct x; try reflexivity
           end.
    exfalso. apply Hv. reflexivity.
  - intros ->. unfold More.when_rule. splits.
    + intros c s ->. reflexivity.
    + intros c s H1 ->.
      destruct (attr "whenTagName" n) as [[|c1 s1]|]; try discriminate; reflexivity.
    + intros c s H1 H2 ->.
      destruct (attr "whenTagName" n) as [[|c1 s1]|]; try discriminate;
        destruct (attr "whenLabelValue" n) as [[|c2 s2]|]; try discriminate;
        reflexivity.
    + intros H1 H2 H3.
      destruct (attr "whenTagName" n) as [[|c1 s1]|]; try discriminate;
        destruct (attr "whenLabelValue" n) as [[|c2 s2]|]; try discriminate;
        destruct (attr "whenChoiceValue" n) as [[|c3 s3]|]; try discriminate;
        reflexivity.
Qed.

Lemma conditionals_witness :
  exists schema diags info,
    parse_tree
      (Element "Choices"
         [("name", "c"); ("toName", "t"); ("perRegion", "true");
          ("whenLabelValue", "Person"); ("whenTagName", "ner")] [])
    = Ok (schema, diags)
    /\ Py.get "c" schema = Some info
    /\ ti_conditionals info = Some (mkCond "tag" "ner").
Proof.
  destruct (conditionals_follow_precedence
              (Element "Choices"
                 [("name", "c"); ("toName", "t"); ("perRegion", "true");
                  ("whenLabelValue", "Person"); ("whenTagName", "ner")] []))
    as (schema & diags & Hp & Hall).
  exists schema, diags.
  destruct (Hall "c" _ eq_refl) as (info & Hg & _ & Hrule).
  exists info. splits; auto.
  destruct (Hrule eq_refl) as (Htag & _).
  apply (Htag "n"%char "er"). reflexivity.
Defined.

Lemma split_on_no_sep (sep : ascii) (s : string) :
  Forall (fun w => More.has_char sep w = false) (split_on sep s).
Proof.
  induction s as [|c s IH]; simpl.
  - constructor; [reflexivity|constructor].
  - destruct (Ascii.eqb c sep) eqn:E.
    + constructor; [reflexivity|assumption].
    + destruct (split_on sep s) as [|w ws]; simpl.
      * constructor; [simpl; rewrite E; reflexivity|constructor].
      * inversion IH; subst. constructor; [|assumption].
        simpl. rewrite E. assumption.
Qed.

(** X18. The [to_name] of an entry is the [toName] attribute of the
    output tag it was built from, cut at every comma: it is never
    empty, no piece contains a comma, and joining the pieces with
    commas gives the attribute back. *)
Theorem to_name_splits_toName_at_commas :
  forall (t : Node),
    exists schema diags,
      parse_tree t = Ok (schema, diags)
      /\ forall k n,
          last_named _is_output_tag k (iter t) = Some n ->
          exists info toName,
            Py.get k schema = Some info
            /\ attr "toName" n = Some toName
            /\ join "," (ti_to_name info) = toName
            /\ ti_to_name info <> []
            /\ Forall (fun w => More.has_char "," w = false) (ti_to_name info).
Proof.
  intros t. destruct (entry_of_last_output_tag t) as (schema & diags & Hp & Hall).
  exists schema, diags. split; [assumption|].
  intros k n Hl. specialize (Hall k). rewrite Hl in Hall.
  destruct Hall as (info & toName & Hg & Ht & Hto & _).
  exists info, toName. rewrite Hto. splits; auto.
  - apply join_split_on.
  - apply split_on_nonempty.
  - apply split_on_no_sep.
Qed.

Lemma to_name_witness :
  exists schema diags info,
    parse_tree cfg_filter = Ok (schema, diags)
    /\ Py.get "c" schema = Some info
    /\ join "," (ti_to_name info) = "t,u".
Proof.
  destruct (to_name_splits_toName_at_commas cfg_filter)
    as (schema & diags & Hp & Hall).
  exists schema, diags.
  destruct (Hall "c" _ eq_refl) as (info & toName & Hg & Ht & Hj & _).
  exists info. splits; auto.
  rewrite Hj. vm_compute in Ht. injection Ht as <-. reflexivity.
Defined.

(** *** The log *)

Lemma collect_label_log (st : Acc) (n : Node) (anc : list Node) :
  log (collect_label st n anc) = log st
  \/ (log (collect_label st n anc) = (log st ++ [NoValueOrAlias n])%list
      /\ in_set (tag n) _LABEL_TAGS = true
      /\ (exists owner, _get_parent_output_tag_name anc (outputs st) = Some owner)
      /\ Py.truthy (or_else (attr "alias" n) (attr "value" n)) = false).
Proof.
  unfold collect_label.
  destruct (in_set (tag n) _LABEL_TAGS) eqn:Ht; cbn [negb]; [|left; reflexivity].
  destruct (_get_parent_output_tag_name anc (outputs st)) as [owner|];
    [|left; reflexivity].
  destruct (or_else (attr "alias" n) (attr "value" n)) as [[|c0 s0]|];
    simpl; [right|left; reflexivity|right]; splits; eauto.
Qed.

Lemma log_after :
  forall (nodes : list (Node * list Node)) (st st' : Acc),
    visit_all st nodes = Ok st' ->
    forall d,
      In d (log st') ->
      In d (log st)
      \/ exists n anc,
          d = NoValueOrAlias n /\ In (n, anc) nodes
          /\ in_set (tag n) _LABEL_TAGS = true
          /\ Py.truthy (or_else (attr "alias" n) (attr "value" n)) = false.
Proof.
  induction nodes as [|[x anc] nodes IH]; intros st st' H d Hd; simpl in H.
  - inversion H. subst. left. assumption.
  - apply bind_inv in H. destruct H as (sx & Hx & H).
    destruct (visit_total st (x, anc)) as (s1 & Hc & Hv). simpl in Hc, Hv.
    rewrite Hv in Hx. inversion Hx. subst sx. clear Hx Hv.
    destruct (classify_total st x) as (s1' & Hc' & _ & Hlog).
    rewrite Hc in Hc'. inversion Hc'. subst s1'.
    destruct (IH _ _ H d Hd) as [Hin|(n & anc' & E & Hn & Ht & Hf)].
    + destruct (collect_label_log s1 x anc) as [E|(E & Ht & _ & Hf)];
        rewrite E in Hin.
      * left. rewrite <- Hlog. assumption.
      * apply in_app_or in Hin. destruct Hin as [Hin|[<-|[]]].
        -- left. rewrite <- Hlog. assumption.
        -- right. exists x, anc. splits; auto. left. reflexivity.
    + right. exists n, anc'. splits; auto. right. assumption.
Qed.

Lemma complete_diag_inv (ins : dict InputInfo) (lbls : dict (dict (dict string))) :
  forall (items : list (string * OutputInfo)) (d : Diag),
    In d (snd (complete items ins lbls)) ->
    exists T info name,
      In (T, info) (fst (complete items ins lbls))
      /\ In name (ti_to_name info) /\ Py.get name ins = None
      /\ d = MissingInput name T.
Proof.
  induction items as [|[k oi] items IH]; intros d H; simpl in H; [contradiction|].
  apply in_app_or in H. destruct H as [H|H].
  - apply resolve_inputs_diag in H. destruct H as (name & Hn & Hg & ->).
    eexists; eexists; exists name. split; [left; reflexivity|]. auto.
  - destruct (IH d H) as (T & info & name & Hin & Hn & Hg & ->).
    exists T, info, name. split; [right; assumption|]. auto.
Qed.

(** X19. Every message in the log reports a real omission. A missing
    input is reported only for an entry whose [to_name] holds a name
    that is no key of the input map, and a missing value only for a
    [Label] or [Choice] node of the tree whose [alias] and [value] are
    both absent or empty. *)
Theorem diagnostics_are_justified :
  forall (t : Node),
    exists st schema diags,
      visit_all empty_acc (iter t) = Ok st
      /\ parse_tree t = Ok (schema, diags)
      /\ forall d,
          In d diags ->
          match d with
          | MissingInput name T =>
              exists info,
                In (T, info) schema /\ In name (ti_to_name info)
                /\ Py.get name (inputs st) = None
          | NoValueOrAlias n =>
              exists anc,
                In (n, anc) (iter t)
                /\ in_set (tag n) _LABEL_TAGS = true
                /\ Py.truthy (or_else (attr "alias" n) (attr "value" n)) = false
          end.
Proof.
  intros t. destruct (parse_tree_total t) as (st & Hv & Hp).
  exists st. eexists; eexists; splits; [exact Hv|exact Hp|].
  intros d Hd. apply in_app_or in Hd. destruct Hd as [Hd|Hd].
  - destruct (log_after _ _ _ Hv d Hd) as [[]|(n & anc & -> & Hn & Ht & Hf)].
    exists anc. auto.
  - destruct (complete_diag_inv _ _ _ _ Hd) as (T & info & name & Hin & Hn & Hg & ->).
    exists info. auto.
Qed.

Lemma diagnostics_witness :
  exists st schema diags,
    visit_all empty_acc (iter cfg_labels) = Ok st
    /\ parse_tree cfg_labels = Ok (schema, diags)
    /\ In (MissingInput "B" "T") diags
    /\ Py.get "B" (inputs st) = None.
Proof.
  destruct (diagnostics_are_justified cfg_labels)
    as (st & schema & diags & Hv & Hp & Hall).
  exists st, schema, diags. split; [assumption|]. split; [assumption|].
  assert (Hin : In (MissingInput "B" "T") diags).
  { vm_compute in Hp. injection Hp as _ <-. left. reflexivity. }
  split; [assumption|].
  destruct (Hall _ Hin) as (info & _ & _ & Hg). exact Hg.
Defined.

End ConfigMore.
